(** * The command queue of the eSSL sync server (src/server.js)

    A shallow embedding of the command queue of [server.js] and of the
    request handlers that read or change it, with the properties of the
    queue's three-state acknowledgment protocol; then of the tables of
    users and attendance and of the two parsers of their lines.

    Modelling conventions.
    - A JavaScript string is a [string]; one [ascii] stands for one code unit
      below 256 (so the line terminators and white space of the model are
      the ones of that range: TAB, LF, VT, FF, CR, SP and NBSP).
    - A command object lives in a heap of objects ([objects]) and is named by
      its location; the arrays held by the [deviceCommands] map are lists of
      locations.  Every array of the program is reachable from the map only
      (or is a fresh empty array), so the arrays themselves are kept by
      value.
    - A command id is an [N]: the counter takes the values 1, 2, 3, ... on
      which JavaScript's number arithmetic is exact (below 2^53).  The value
      of [Number(text)] is kept as an exact rational; its rounding to a
      double is outside the model.
    - [new Date().toISOString()] is an input of each handler ([now]).
    - [console.log] is a list of [LogEvent]s returned by each handler; the
      wording of a message is abstracted to a constructor and its
      arguments.
    - A request field is an [option string]: absent, or a string (a field
      that Express would parse into an array or a nested object is outside
      the model).  [req.query] and [req.body] are always there, as the
      parsers of Express 4 leave them; a field they do not hold is absent.
    - The fields that a handler converts with [String] or stores as they
      are (the SN and the command of the three enqueue routes, the SN of a
      request for the tables) are [option JsValue]: absent, or [null], a
      boolean, a number, a text or an array of such values, with the test
      [!v] and the conversion [String(v)] of JavaScript.  A number of such
      a field is an integer below 2^53 in absolute value, for which
      [String] gives the decimal text.  An object as the value of a field
      is outside the model.
    - The handlers of [/iclock/cdata.aspx] and [/data] and the fallback
      route neither read nor write the queue; they are modelled apart from
      it, on the two JSON files of the data directory ([Disk]).
    - A file of the data directory is the array that [JSON.parse] reads from
      it: a list of objects, each the finite map of its properties to texts,
      numbers or [null].  The files hold what the server wrote to them,
      starting from [[]]; a file that is missing, is not JSON or holds
      something else, and a failure of the file system, are outside the
      model.  The order of the properties of an object is not kept, and a
      property with the value [undefined] counts as absent. *)

From Stdlib Require Import QArith Ascii String.
From stdpp Require Import gmap strings list fin_maps pretty sorting.

Local Open Scope string_scope.
Local Open Scope list_scope.

(** ** JavaScript built-ins used by the handlers *)

Module Js.

Definition LF : ascii := "010"%char.
Definition CR : ascii := "013"%char.

(** [WhiteSpace] and [LineTerminator] code units, as [String.prototype.trim]
    and [Number] strip them. *)
Definition is_white_space (a : ascii) : bool :=
  match N_of_ascii a with
  | 9 | 10 | 11 | 12 | 13 | 32 | 160 => true
  | _ => false
  end%N.

Fixpoint trimStart (s : string) : string :=
  match s with
  | String a s' => if is_white_space a then trimStart s' else s
  | EmptyString => EmptyString
  end.

Fixpoint trimEnd (s : string) : string :=
  match s with
  | String a s' =>
      match trimEnd s' with
      | EmptyString => if is_white_space a then EmptyString else String a EmptyString
      | t => String a t
      end
  | EmptyString => EmptyString
  end.

(** [s.trim()] *)
Definition trim (s : string) : string := trimEnd (trimStart s).

(** Puts a code unit in front of the first piece of a split. *)
Definition cons_head (a : ascii) (l : list string) : list string :=
  match l with
  | h :: t => String a h :: t
  | [] => [String a EmptyString]
  end.

(** [s.split(sep)] for a separator of one code unit. *)
Fixpoint split (sep : ascii) (s : string) : list string :=
  match s with
  | EmptyString => [EmptyString]
  | String a s' =>
      if decide (a = sep) then EmptyString :: split sep s'
      else cons_head a (split sep s')
  end.

(** [s.split(/\r?\n/)]: a separator is CR LF, or LF alone. *)
Fixpoint split_lines (s : string) : list string :=
  match s with
  | EmptyString => [EmptyString]
  | String a s' =>
      if decide (a = LF) then EmptyString :: split_lines s'
      else
        match s' with
        | String b s'' =>
            if decide (a = CR ∧ b = LF) then EmptyString :: split_lines s''
            else cons_head a (split_lines s')
        | EmptyString => cons_head a (split_lines s')
        end
  end.

(** [l.join(sep)] *)
Definition join (sep : string) (l : list string) : string := String.concat sep l.

(** [!s] for a string, and for a field that may be undefined. *)
Definition falsy (s : string) : bool := bool_decide (s = EmptyString).
Definition missing (f : option string) : bool :=
  match f with Some s => falsy s | None => true end.

(** *** Numbers *)

Inductive Number : Type :=
| NaN
| Infinity (negative : bool)
| Finite (q : Q).

(** [x === v] for an integer [x >= 0] (a command id) and a number [v]. *)
Definition strict_eq (x : N) (v : Number) : bool :=
  match v with
  | Finite q => Qeq_bool (inject_Z (Z.of_N x)) q
  | _ => false
  end.

(** [`${x}`] for an integer [x >= 0]. *)
Definition to_string (x : N) : string := pretty x.

Definition digit_value (radix : N) (a : ascii) : option N :=
  let c := N_of_ascii a in
  let v :=
    if ((48 <=? c) && (c <=? 57))%N then Some (c - 48)%N
    else if ((97 <=? c) && (c <=? 122))%N then Some (c - 87)%N
    else if ((65 <=? c) && (c <=? 90))%N then Some (c - 55)%N
    else None in
  match v with
  | Some d => if (d <? radix)%N then Some d else None
  | None => None
  end.

(** The longest prefix of digits of [s], most significant first, and the rest. *)
Fixpoint span_digits (radix : N) (s : string) : list N * string :=
  match s with
  | String a s' =>
      match digit_value radix a with
      | Some d => let '(ds, r) := span_digits radix s' in (d :: ds, r)
      | None => ([], s)
      end
  | EmptyString => ([], EmptyString)
  end.

Definition digits_value (radix : N) (ds : list N) : N :=
  foldl (λ acc d, acc * radix + d)%N 0%N ds.

(** A sign, if there is one: [true] for minus. *)
Definition take_sign (s : string) : bool * string :=
  match s with
  | String "+" s' => (false, s')
  | String "-" s' => (true, s')
  | _ => (false, s)
  end.

(** [NonDecimalIntegerLiteral]: 0x.., 0o.., 0b.. (either case), no sign. *)
Definition non_decimal (s : string) : option N :=
  match s with
  | String "0" (String p s') =>
      let radix :=
        if decide (p = "x" ∨ p = "X")%char then Some 16%N
        else if decide (p = "o" ∨ p = "O")%char then Some 8%N
        else if decide (p = "b" ∨ p = "B")%char then Some 2%N
        else None in
      match radix with
      | Some r =>
          match span_digits r s' with
          | (d :: ds, EmptyString) => Some (digits_value r (d :: ds))
          | _ => None
          end
      | None => None
      end
  | _ => None
  end.

(** [ExponentPart] (optional): the exponent, or [None] when what follows
    the mantissa is not an exponent part and not the end of the text. *)
Definition exponent_part (s : string) : option Z :=
  match s with
  | EmptyString => Some 0%Z
  | String e s' =>
      if decide (e = "e" ∨ e = "E")%char then
        let '(neg, s'') := take_sign s' in
        match span_digits 10 s'' with
        | (d :: ds, EmptyString) =>
            let v := Z.of_N (digits_value 10 (d :: ds)) in
            Some (if neg then (- v)%Z else v)
        | _ => None
        end
      else None
  end.

(** [StrUnsignedDecimalLiteral] other than [Infinity]. *)
Definition unsigned_decimal (s : string) : option Q :=
  let '(ints, r) := span_digits 10 s in
  let '(fracs, r') :=
    match r with
    | String "." r1 => span_digits 10 r1
    | _ => ([], r)
    end in
  match ints ++ fracs with
  | [] => None
  | ds =>
      match exponent_part r' with
      | Some e =>
          Some (inject_Z (Z.of_N (digits_value 10 ds))
                * Qpower (inject_Z 10) (e - Z.of_nat (length fracs)))%Q
      | None => None
      end
  end.

(** [Number(s)] for a string [s] ([StringToNumber]). *)
Definition Number_of (s : string) : Number :=
  let t := trim s in
  if falsy t then Finite 0
  else
    match non_decimal t with
    | Some n => Finite (inject_Z (Z.of_N n))
    | None =>
        let '(neg, u) := take_sign t in
        if decide (u = "Infinity") then Infinity neg
        else
          match unsigned_decimal u with
          | Some q => Finite (if neg then (- q)%Q else q)
          | None => NaN
          end
    end.

(** [s.includes(a)] for one code unit. *)
Fixpoint includes (a : ascii) (s : string) : bool :=
  match s with
  | String b s' => bool_decide (b = a) || includes a s'
  | EmptyString => false
  end.

(** *** White space as a separator *)

(** [s.split(/\s+/)]: a separator is a maximal run of white space, so a
    string that starts or ends with white space gets an empty first or last
    piece.  [in_run] tells that the code unit before was white space. *)
Fixpoint split_space_from (in_run : bool) (s : string) : list string :=
  match s with
  | EmptyString => [EmptyString]
  | String a s' =>
      if is_white_space a then
        if in_run then split_space_from true s'
        else EmptyString :: split_space_from true s'
      else cons_head a (split_space_from false s')
  end.

Definition split_space (s : string) : list string := split_space_from false s.

(** [s.startsWith(p)] *)
Fixpoint startsWith (p s : string) : bool :=
  match p, s with
  | EmptyString, _ => true
  | String a p', String b s' => bool_decide (a = b) && startsWith p' s'
  | String _ _, EmptyString => false
  end.

(** [!n] for a number. *)
Definition falsy_number (n : Number) : bool :=
  match n with
  | NaN => true
  | Infinity _ => false
  | Finite q => Qeq_bool q 0
  end.

(** [m === n] for two numbers. *)
Definition number_eq (m n : Number) : bool :=
  match m, n with
  | Finite p, Finite q => Qeq_bool p q
  | Infinity a, Infinity b => bool_decide (a = b)
  | _, _ => false
  end.

End Js.

(** ** The values of request fields *)

(** What a parser of Express gives for a property of [req.body] or of
    [req.query] that the handler converts itself: [null], a boolean, a
    number, a text, or an array of such values. *)
#[warnings="-register-all"]
Inductive JsValue : Type :=
| JNull
| JBool (b : bool)
| JNumber (n : Z)
| JString (s : string)
| JArray (items : list JsValue).

(** [!v], and [!f] for a field that may be undefined. *)
Definition falsy_value (v : JsValue) : bool :=
  match v with
  | JNull => true
  | JBool b => negb b
  | JNumber n => bool_decide (n = 0%Z)
  | JString s => Js.falsy s
  | JArray _ => false
  end.

Definition missing_value (f : option JsValue) : bool :=
  match f with Some v => falsy_value v | None => true end.

(** [String(n)] for an integer. *)
Definition integer_text (n : Z) : string :=
  if (n <? 0)%Z then "-" +:+ Js.to_string (Z.to_N (- n))
  else Js.to_string (Z.to_N n).

(** [String(v)]: an array prints as its elements with commas between them,
    an element [null] as the empty text. *)
Fixpoint String_of (v : JsValue) : string :=
  match v with
  | JNull => "null"
  | JBool b => if b then "true" else "false"
  | JNumber n => integer_text n
  | JString s => s
  | JArray items =>
      Js.join ","
        (map (λ x, match x with JNull => "" | _ => String_of x end) items)
  end.

(** ** The command queue *)

Inductive Status : Set := pending | sent | done.

Global Instance Status_eq_dec : EqDecision Status.
Proof. solve_decision. Defined.

(** A command object: [{ id, command, status, queuedAt }], and the properties
    [sentAt], [doneAt] and [deviceAck] that the handlers add later. *)
Record Command : Type := mkCommand {
  id : N;
  command : string;
  status : Status;
  queuedAt : string;
  sentAt : option string;
  doneAt : option string;
  deviceAck : option string
}.

Global Instance Command_eq_dec : EqDecision Command.
Proof. solve_decision. Defined.

(** A location names an object of the heap. *)
Abbreviation loc := nat (only parsing).

(** The module state: the heap of command objects and the two maps
    [deviceCommands] (SN to array of commands) and [deviceSeq] (SN to last id). *)
Record Store : Type := mkStore {
  objects : list Command;
  deviceCommands : gmap string (list loc);
  deviceSeq : gmap string N
}.

(** Both maps are empty when the server starts. *)
Definition init : Store :=
  {| objects := []; deviceCommands := ∅; deviceSeq := ∅ |}.

(** What a handler writes to the console. *)
Inductive LogEvent : Type :=
| LogBody (SN command : option JsValue)
| LogQueued (sn : string) (id : N) (commandText : string)
| LogPolling (SN : string)
| LogSending (count : nat) (SN responseText : string)
| LogAckFrom (SN infoRaw : string)
| LogUnrecognized (line : string)
| LogUnknownId (id : Js.Number) (SN : string)
| LogAcknowledged (id : Js.Number) (command : option string) (SN status : string)
| LogAcknowledgedForm (ID CMD SN : string) (Return : option string)
| LogUnknownForm (ID CMD SN : string).

(** What a handler sends back: a text body, or the JSON of an error, of
    [{ success: true, queued }] or of [{ sn, commands }].  A command object
    is serialised into the values its properties have at that time;
    [undefined] has no properties ([None]). *)
Inductive Response : Type :=
| Text (body : string)
| BadRequest (error : string)
| Queued (queued : option Command)
| CommandList (sn : string) (commands : list (option Command)).

(** The outcome of a handler. *)
Record Outcome : Type := mkOutcome {
  store : Store;
  response : Response;
  console : list LogEvent
}.

(** *** Assignments to the properties of a command object *)

Definition set_sent (now : string) (c : Command) : Command :=
  {| id := id c; command := command c; status := sent; queuedAt := queuedAt c;
     sentAt := Some now; doneAt := doneAt c; deviceAck := deviceAck c |}.

Definition set_done (now ack : string) (c : Command) : Command :=
  {| id := id c; command := command c; status := done; queuedAt := queuedAt c;
     sentAt := sentAt c; doneAt := Some now; deviceAck := Some ack |}.

(** *** Reads *)

(** [deviceCommands.get(sn) || []] *)
Definition queue_of (st : Store) (sn : string) : list loc :=
  default [] (deviceCommands st !! sn).

(** [c.status === "pending"] for the object at a location *)
Definition is_pending (h : list Command) (l : loc) : Prop :=
  status <$> h !! l = Some pending.

Global Instance is_pending_dec h l : Decision (is_pending h l).
Proof. unfold is_pending. apply _. Defined.

(** [c.id === v] for the object at a location *)
Definition has_id (h : list Command) (v : Js.Number) (l : loc) : Prop :=
  (λ c, Js.strict_eq (id c) v) <$> h !! l = Some true.

Global Instance has_id_dec h v l : Decision (has_id h v l).
Proof. unfold has_id. apply _. Defined.

(** [arr.findIndex((c) => c.id === v)] together with [arr[idx]]; [None] for -1 *)
Definition findIndex (h : list Command) (v : Js.Number) (arr : list loc)
  : option (nat * loc) :=
  list_find (has_id h v) arr.

(** *** nextCommandIdFor and queueCommand *)

Definition nextCommandIdFor (sn : string) (st : Store) : Store * N :=
  let last := default 0%N (deviceSeq st !! sn) in
  let next := (last + 1)%N in
  ({| objects := objects st; deviceCommands := deviceCommands st;
      deviceSeq := <[sn := next]> (deviceSeq st) |}, next).

(** Returns the location of the created object: the object itself, as the
    source returns [cmd]. *)
Definition queueCommand (sn commandText now : string) (st : Store)
  : Store * loc * list LogEvent :=
  let '(st1, id) := nextCommandIdFor sn st in
  let cmd := {| id := id; command := commandText; status := pending;
                queuedAt := now; sentAt := None; doneAt := None;
                deviceAck := None |} in
  let l : loc := length (objects st1) in
  let arr := queue_of st1 sn in
  ({| objects := objects st1 ++ [cmd];
      deviceCommands := <[sn := arr ++ [l]]> (deviceCommands st1);
      deviceSeq := deviceSeq st1 |},
   l, [LogQueued sn id commandText]).

(** [res.json(...)] of a command object: a copy of its properties. *)
Definition snapshot (st : Store) (l : loc) : option Command := objects st !! l.

(** *** GET /iclock/getrequest.aspx *)

Definition command_line (c : Command) : string :=
  "C:" +:+ Js.to_string (id c) +:+ ":" +:+ command c.

Definition getrequest (qSN : option string) (now : string) (st : Store) : Outcome :=
  let SN := default "" qSN in
  let log0 := [LogPolling SN] in
  if Js.falsy SN then mkOutcome st (Text "OK") log0
  else
    let all := queue_of st SN in
    let pending := filter (is_pending (objects st)) all in
    if decide (length pending = 0) then mkOutcome st (Text "OK") log0
    else
      let lines := omap (λ l, command_line <$> objects st !! l) pending in
      let objects' := foldl (λ h l, alter (set_sent now) l h) (objects st) pending in
      let responseText := Js.join (String Js.LF "") lines +:+ String Js.LF "" in
      mkOutcome
        {| objects := objects';
           deviceCommands := <[SN := all]> (deviceCommands st);
           deviceSeq := deviceSeq st |}
        (Text responseText)
        (log0 ++ [LogSending (length lines) SN (Js.trim responseText)]).

(** *** GET /iclock/devicecmd (batch form) *)

(** The state of the [forEach] loop: the heap, the array [arr] and the
    console. *)
Record AckLoop : Type := mkAckLoop {
  loop_objects : list Command;
  loop_arr : list loc;
  loop_console : list LogEvent
}.

(** The body of [lines.forEach]. *)
Definition ack_line (SN now : string) (s : AckLoop) (line : string) : AckLoop :=
  let parts := Js.split ":" line in
  if decide (length parts < 3 ∨ parts !! 0 ≠ Some "C") then
    mkAckLoop (loop_objects s) (loop_arr s)
      (loop_console s ++ [LogUnrecognized line])
  else
    let id := Js.Number_of (default "" (parts !! 1)) in
    let status := Js.join ":" (drop 2 parts) in
    match findIndex (loop_objects s) id (loop_arr s) with
    | None =>
        mkAckLoop (loop_objects s) (loop_arr s)
          (loop_console s ++ [LogUnknownId id SN])
    | Some (idx, cmd) =>
        let h := alter (set_done now status) cmd (loop_objects s) in
        mkAckLoop h (delete idx (loop_arr s))
          (loop_console s ++ [LogAcknowledged id (command <$> h !! cmd) SN status])
    end.

(** [String(infoRaw).split(/\r?\n/).map((l) => l.trim()).filter(Boolean)] *)
Definition info_lines (infoRaw : string) : list string :=
  filter (λ l, l ≠ "") (Js.trim <$> Js.split_lines infoRaw).

(** The update of the map after an acknowledgment. *)
Definition update_queue (SN : string) (arr : list loc)
    (m : gmap string (list loc)) : gmap string (list loc) :=
  if decide (length arr = 0) then delete SN m else <[SN := arr]> m.

Definition devicecmd (qSN qinfo : option string) (now : string) (st : Store) : Outcome :=
  let SN := default "" qSN in
  let infoRaw := default "" qinfo in
  let log0 := [LogAckFrom SN infoRaw] in
  if Js.falsy SN || Js.falsy infoRaw then mkOutcome st (Text "OK") log0
  else
    let lines := info_lines infoRaw in
    let arr := queue_of st SN in
    let s := foldl (ack_line SN now) (mkAckLoop (objects st) arr log0) lines in
    mkOutcome
      {| objects := loop_objects s;
         deviceCommands := update_queue SN (loop_arr s) (deviceCommands st);
         deviceSeq := deviceSeq st |}
      (Text "OK")
      (loop_console s).

(** *** POST /iclock/devicecmd.aspx (structured form) *)

(** The fields of the request: [SN] of the query string, and [SN], [ID],
    [Return] and [CMD] of the form-encoded body. *)
Record AckForm : Type := mkAckForm {
  query_SN : option string;
  body_SN : option string;
  body_ID : option string;
  body_Return : option string;
  body_CMD : option string
}.

(** [a || b] for two fields that may be undefined; the result is falsy when
    it is [None] or the empty string. *)
Definition or_field (a b : option string) : option string :=
  if Js.missing a then b else a.

(** [req.query.SN || req.body.SN || ""] *)
Definition form_SN (f : AckForm) : string :=
  default "" (or_field (or_field (query_SN f) (body_SN f)) (Some "")).

Definition devicecmd_aspx (f : AckForm) (now : string) (st : Store) : Outcome :=
  let SN := form_SN f in
  if Js.falsy SN || Js.missing (body_ID f) || Js.missing (body_CMD f) then
    mkOutcome st (Text "OK") []
  else
    let ID := default "" (body_ID f) in
    let CMD := default "" (body_CMD f) in
    let arr := queue_of st SN in
    let cmdId := Js.Number_of ID in
    match findIndex (objects st) cmdId arr with
    | Some (idx, cmd) =>
        let ack := if decide (body_Return f = Some "0") then "OK" else "ERR" in
        let h := alter (set_done now ack) cmd (objects st) in
        let arr' := delete idx arr in
        mkOutcome
          {| objects := h;
             deviceCommands := update_queue SN arr' (deviceCommands st);
             deviceSeq := deviceSeq st |}
          (Text "OK")
          [LogAcknowledgedForm ID CMD SN (body_Return f)]
    | None =>
        mkOutcome st (Text "OK") [LogUnknownForm ID CMD SN]
    end.

(** *** POST /queue-command, GET /request-users, GET /request-attendance *)

Definition queued (r : Store * loc * list LogEvent) (log0 : list LogEvent) : Outcome :=
  let '(st', l, log) := r in
  mkOutcome st' (Queued (snapshot st' l)) (log0 ++ log).

(** [String(f)] for a field that has passed the test [!f]. *)
Definition field_text (f : option JsValue) : string :=
  match f with Some v => String_of v | None => "undefined" end.

Definition queue_command (bSN bcommand : option JsValue) (now : string)
    (st : Store) : Outcome :=
  let log0 := [LogBody bSN bcommand] in
  if missing_value bSN || missing_value bcommand then
    mkOutcome st (BadRequest "SN and command are required") log0
  else queued (queueCommand (field_text bSN) (field_text bcommand) now st) log0.

Definition request_users (qSN : option JsValue) (now : string) (st : Store)
  : Outcome :=
  if missing_value qSN then mkOutcome st (BadRequest "SN is required") []
  else queued (queueCommand (field_text qSN) "CHECK" now st) [].

Definition request_attendance (qSN : option JsValue) (now : string) (st : Store)
  : Outcome :=
  if missing_value qSN then mkOutcome st (BadRequest "SN is required") []
  else queued (queueCommand (field_text qSN) "DATA QUERY ATTLOG" now st) [].

(** *** GET /commands/:sn *)

Definition commands (sn : string) (st : Store) : Outcome :=
  let arr := queue_of st sn in
  mkOutcome st (CommandList sn (snapshot st <$> arr)) [].

(** *** The server: one request after the other *)

Inductive Request : Type :=
| QueueCommand (SN command : option JsValue)
| RequestUsers (SN : option JsValue)
| RequestAttendance (SN : option JsValue)
| GetRequest (SN : option string)
| DeviceCmd (SN info : option string)
| DeviceCmdAspx (form : AckForm)
| Commands (sn : string).

(** A request arrives at a time [now]. *)
Definition handle (now : string) (r : Request) (st : Store) : Outcome :=
  match r with
  | QueueCommand SN c => queue_command SN c now st
  | RequestUsers SN => request_users SN now st
  | RequestAttendance SN => request_attendance SN now st
  | GetRequest SN => getrequest SN now st
  | DeviceCmd SN info => devicecmd SN info now st
  | DeviceCmdAspx f => devicecmd_aspx f now st
  | Commands sn => commands sn st
  end.

(** The store after a sequence of requests, the oldest first. *)
Definition run (rs : list (string * Request)) (st : Store) : Store :=
  foldl (λ st '(now, r), store (handle now r st)) st rs.

(** ** The tables of users and attendance *)

(** The value of a property: a string, a number or [null]; or the SN of a
    query that is not a string, kept as it is: a boolean, or an array. *)
Inductive Value : Type :=
| VString (s : string)
| VNumber (n : Js.Number)
| VNull
| VBool (b : bool)
| VArray (items : list JsValue).

(** The value of a request field as the value of a property. *)
Definition value_of (v : JsValue) : Value :=
  match v with
  | JNull => VNull
  | JBool b => VBool b
  | JNumber n => VNumber (Js.Finite (inject_Z n))
  | JString s => VString s
  | JArray items => VArray items
  end.

(** An object is the finite map of its own properties.  A property whose
    value is [undefined] is not kept: reading it gives [undefined] as for a
    property that is not there, and [JSON.stringify] leaves it out.  The
    order of the properties, which only the text of a JSON file shows, is
    not kept either. *)
Abbreviation Obj := (gmap string Value) (only parsing).

(** [{ ...o, k: v }] for a value [v] that may be undefined. *)
Definition define (k : string) (v : option Value) (o : Obj) : Obj :=
  match v with
  | Some v => <[k := v]> o
  | None => delete k o
  end.

(** [a === b] for two properties that may be undefined; two arrays read
    from a file or a request are never the same object. *)
Definition same_value (a b : option Value) : bool :=
  match a, b with
  | None, None => true
  | Some (VString s), Some (VString t) => bool_decide (s = t)
  | Some (VNumber m), Some (VNumber n) => Js.number_eq m n
  | Some VNull, Some VNull => true
  | Some (VBool a), Some (VBool b) => bool_decide (a = b)
  | _, _ => false
  end.

(** [v || d] for a string [v] that may be undefined. *)
Definition or_text (v : option string) (d : string) : string :=
  match v with
  | Some s => if Js.falsy s then d else s
  | None => d
  end.

(** *** The two JSON files *)

Inductive File : Set := usersFile | attendanceFile.

(** What the two files of the data directory hold: each an array of
    objects. *)
Record Disk : Type := mkDisk {
  users : list Obj;
  attendance : list Obj
}.

(** Both files are created as [[]] when the server finds none. *)
Definition fresh : Disk := {| users := []; attendance := [] |}.

(** [JSON.parse(fs.readFileSync(file, "utf8"))] *)
Definition loadJSON (file : File) (d : Disk) : list Obj :=
  match file with
  | usersFile => users d
  | attendanceFile => attendance d
  end.

(** What [JSON.stringify] writes for a value, read back by [JSON.parse]: a
    number that is not finite becomes [null]. *)
Definition json_value (v : Value) : Value :=
  match v with
  | VNumber (Js.Finite _) => v
  | VNumber _ => VNull
  | VString _ | VNull | VBool _ | VArray _ => v
  end.

Definition json (o : Obj) : Obj := json_value <$> o.

(** [fs.writeFileSync(file, JSON.stringify(data, null, 2))] *)
Definition saveJSON (file : File) (data : list Obj) (d : Disk) : Disk :=
  let written := json <$> data in
  match file with
  | usersFile => {| users := written; attendance := attendance d |}
  | attendanceFile => {| users := users d; attendance := written |}
  end.

(** *** parseUserLine *)

(** The body of the [forEach] over the pairs of a line.  An assignment to
    the property [__proto__] of the object literal [{}] with a string does
    nothing. *)
Definition set_field (fields : gmap string string) (pair : string)
  : gmap string string :=
  let kv := Js.split "=" pair in
  match kv !! 0%nat with
  | Some key =>
      if Js.falsy key then fields
      else if decide (key = "__proto__") then fields
      else <[key := or_text (kv !! 1%nat) ""]> fields
  | None => fields
  end.

(** The object [fields] after the loop. *)
Definition fields_of (line : string) : gmap string string :=
  foldl set_field ∅ (Js.split_space line).

(** [Number(v) || 0] for a string [v] that may be undefined. *)
Definition number_or_zero (v : option string) : Js.Number :=
  let n := match v with Some s => Js.Number_of s | None => Js.NaN end in
  if Js.falsy_number n then Js.Finite 0 else n.

(** The object that parseUserLine returns; the properties of [fields],
    spread last, replace the computed ones of the same name.  (That it
    prints [fields] is recorded by the handler.) *)
Definition parseUserLine (line : string) : Obj :=
  let fields := fields_of line in
  (VString <$> fields) ∪
  (define "PIN" (VString <$> fields !! "PIN") $
   define "Name" (VString <$> fields !! "Name") $
   <["Privilege" := VNumber (number_or_zero (fields !! "Pri"))]> $
   <["Password" := VString (or_text (fields !! "Passwd") "")]> $
   <["Card" := VString (or_text (fields !! "Card") "")]> $
   <["Group" := VString (or_text (fields !! "Grp") "")]> $
   <["TZ" := VString (or_text (fields !! "TZ") "")]> $
   <["Expires" := VString (or_text (fields !! "Expires") "0")]> $
   <["StartDatetime" := VString (or_text (fields !! "StartDatetime") "0")]> $
   <["EndDatetime" := VString (or_text (fields !! "EndDatetime") "0")]> $
   <["ValidCount" := VString (or_text (fields !! "ValidCount") "0")]> ∅).

(** *** parseAttendanceLine *)

(** [parts[1] + (parts[2] ? " " + parts[2] : "")]: an undefined [parts[1]]
    is concatenated as the text [undefined]. *)
Definition timestamp_of (parts : list string) : string :=
  default "undefined" (parts !! 1%nat) +:+
  match parts !! 2%nat with
  | Some p => if Js.falsy p then "" else " " +:+ p
  | None => ""
  end.

Definition parseAttendanceLine (line : string) : Obj :=
  let parts := Js.split_space (Js.trim line) in
  define "PIN" (VString <$> parts !! 0%nat) $
  <["Timestamp" := VString (timestamp_of parts)]> $
  <["VerifyMode" := VString (or_text (parts !! 3%nat) "")]> $
  <["InOutMode" := VString (or_text (parts !! 4%nat) "")]> $
  <["WorkCode" := VString (or_text (parts !! 5%nat) "")]> ∅.

(** *** POST /iclock/cdata.aspx *)

(** What the handlers of the tables write to the console.  The query of the
    metadata request and what the fallback route prints of a request are
    not kept. *)
Inductive DataLog : Type :=
| LogMetadata
| LogSavedLogs (count : nat) (SN : option JsValue)
| LogRawBody (rawBody : string)
| LogFields (fields : gmap string string)
| LogSyncedUsers (count : nat) (SN : option JsValue)
| LogTable (table : option string)
| LogUnknownRequest.

(** What these handlers send back: a text, or the JSON of
    [{ users, attendance }]. *)
Inductive Reply : Type :=
| Plain (body : string)
| Tables (users attendance : list Obj).

Record Saved : Type := mkSaved {
  disk : Disk;
  reply : Reply;
  printed : list DataLog
}.

(** [rawBody.split("\n").map((l) => l.trim())] *)
Definition body_lines (rawBody : string) : list string :=
  Js.trim <$> Js.split Js.LF rawBody.

(** [{ ...log, SN, receivedAt: now }] *)
Definition received (now : string) (SN : option JsValue) (log : Obj) : Obj :=
  <["receivedAt" := VString now]> (define "SN" (value_of <$> SN) log).

(** [{ ...u, createdAt: now, SN }] and [{ ...u, updatedAt: now, SN }] *)
Definition created (now : string) (SN : option JsValue) (u : Obj) : Obj :=
  define "SN" (value_of <$> SN) (<["createdAt" := VString now]> u).

Definition updated (now : string) (SN : option JsValue) (u : Obj) : Obj :=
  define "SN" (value_of <$> SN) (<["updatedAt" := VString now]> u).

(** [x.PIN === u.PIN] *)
Definition same_PIN (u x : Obj) : Prop :=
  same_value (x !! "PIN") (u !! "PIN") = true.

Global Instance same_PIN_dec u x : Decision (same_PIN u x).
Proof. unfold same_PIN. apply _. Defined.

(** The body of [users.forEach]. *)
Definition upsert (now : string) (SN : option JsValue) (existing : list Obj)
    (u : Obj) : list Obj :=
  match list_find (same_PIN u) existing with
  | Some (idx, _) => <[idx := updated now SN u]> existing
  | None => existing ++ [created now SN u]
  end.

Definition cdata_post (table : option string) (SN : option JsValue)
    (body : option string) (now : string) (d : Disk) : Saved :=
  let rawBody := default "" body in
  if decide (table = Some "ATTLOG") then
    let lines := filter (λ l, l ≠ "") (body_lines rawBody) in
    let logs := parseAttendanceLine <$> lines in
    if decide (length logs = 0) then mkSaved d (Plain "OK:ATTLOG 10001") []
    else
      let existing :=
        foldl (λ existing log, existing ++ [received now SN log])
          (loadJSON attendanceFile d) logs in
      mkSaved (saveJSON attendanceFile existing d) (Plain "OK:ATTLOG 10001")
        [LogSavedLogs (length logs) SN]
  else if decide (table = Some "OPERLOG") then
    let lines := filter (λ l, Js.startsWith "USER" l = true) (body_lines rawBody) in
    let users := parseUserLine <$> lines in
    let log0 := LogRawBody rawBody :: (LogFields ∘ fields_of <$> lines) in
    if decide (length users = 0) then mkSaved d (Plain "OK:OPERLOG 10001") log0
    else
      let existing := foldl (upsert now SN) (loadJSON usersFile d) users in
      mkSaved (saveJSON usersFile existing d) (Plain "OK:OPERLOG 10001")
        (log0 ++ [LogSyncedUsers (length users) SN])
  else mkSaved d (Plain "OK") [LogTable table; LogRawBody rawBody].

(** *** GET /iclock/cdata.aspx, GET /data and the fallback route *)

Definition cdata_get (d : Disk) : Saved := mkSaved d (Plain "OK") [LogMetadata].

Definition data (d : Disk) : Saved :=
  mkSaved d (Tables (loadJSON usersFile d) (loadJSON attendanceFile d)) [].

Definition fallback (d : Disk) : Saved :=
  mkSaved d (Plain "OK") [LogUnknownRequest].

(** *** The requests of the tables, one after the other *)

Inductive DataRequest : Type :=
| CdataGet
| CdataPost (table : option string) (SN : option JsValue) (body : option string)
| Data
| Unknown.

Definition serve (now : string) (r : DataRequest) (d : Disk) : Saved :=
  match r with
  | CdataGet => cdata_get d
  | CdataPost table SN body => cdata_post table SN body now d
  | Data => data d
  | Unknown => fallback d
  end.

(** The files after a sequence of requests, the oldest first. *)
Definition run_data (rs : list (string * DataRequest)) (d : Disk) : Disk :=
  foldl (λ d '(now, r), disk (serve now r d)) d rs.

(** ** The vocabulary of the properties *)

(** The text of a list of decimal digits. *)
Fixpoint digits_string (ds : list N) : string :=
  match ds with
  | [] => ""
  | d :: ds => String (pretty_N_char d) (digits_string ds)
  end.

(** [cmd.status = ...] and the like through a reference to a command object. *)
Definition assign (l : loc) (f : Command → Command) (st : Store) : Store :=
  {| objects := alter f l (objects st);
     deviceCommands := deviceCommands st;
     deviceSeq := deviceSeq st |}.

(** One acknowledgment that found [arr[idx] = l]: the object is marked and
    the command leaves the array of [SN]. *)
Definition ack_store (SN : string) (idx : nat) (l : loc) (now ack : string)
    (st : Store) : Store :=
  {| objects := alter (set_done now ack) l (objects st);
     deviceCommands := update_queue SN (delete idx (queue_of st SN)) (deviceCommands st);
     deviceSeq := deviceSeq st |}.

(** [st'] is [st] after one matched acknowledgment for [SN]. *)
Definition ack_rel (SN : string) (st st' : Store) : Prop :=
  ∃ v idx l now ack,
    findIndex (objects st) v (queue_of st SN) = Some (idx, l)
    ∧ st' = ack_store SN idx l now ack st.

(** The store that a state of the batch loop stands for. *)
Definition loop_store (SN : string) (st0 : Store) (s : AckLoop) : Store :=
  {| objects := loop_objects s;
     deviceCommands := update_queue SN (loop_arr s) (deviceCommands st0);
     deviceSeq := deviceSeq st0 |}.

(** The commands of [SN] that a poll delivers. *)
Definition pendingFor (st : Store) (SN : string) : list loc :=
  filter (is_pending (objects st)) (queue_of st SN).

Definition mark_sent (now : string) (pend : list loc) (h : list Command)
  : list Command :=
  foldl (λ h l, alter (set_sent now) l h) h pend.

(** What holds of the store between two requests: no array of the map is
    empty; a location held by an array names an object that is not [done],
    with an id between 1 and the last id given to the device; along an array
    the ids increase; and no object is held by two devices. *)
Record Inv (st : Store) : Prop := mkInv {
  inv_nonempty : ∀ sn, deviceCommands st !! sn ≠ Some [];
  inv_live : ∀ sn l, l ∈ queue_of st sn →
    ∃ c, objects st !! l = Some c ∧ status c ≠ done
         ∧ (1 ≤ id c ≤ default 0 (deviceSeq st !! sn))%N;
  inv_sorted : ∀ sn i j li lj ci cj,
    queue_of st sn !! i = Some li → queue_of st sn !! j = Some lj → i < j →
    objects st !! li = Some ci → objects st !! lj = Some cj →
    (id ci < id cj)%N;
  inv_owner : ∀ sn1 sn2 l,
    l ∈ queue_of st sn1 → l ∈ queue_of st sn2 → sn1 = sn2
}.

(** [deviceSeq.get(sn) || 0] *)
Definition last_id (st : Store) (sn : string) : N :=
  default 0%N (deviceSeq st !! sn).

(** The id of the command that a call of [queueCommand] created. *)
Definition queued_id (r : Store * loc * list LogEvent) : option N :=
  id <$> objects r.1.1 !! r.1.2.


(** The result text that the structured form records for a return code. *)
Definition form_ack (f : AckForm) : string :=
  if decide (body_Return f = Some "0") then "OK" else "ERR".

(** A required field of the form is missing (or empty), as the handler
    tests it: the device identifier, the command id or the command text. *)
Definition form_incomplete (f : AckForm) : bool :=
  Js.falsy (form_SN f) || Js.missing (body_ID f) || Js.missing (body_CMD f).

(** The number that the form gives as command id. *)
Definition form_id (f : AckForm) : Js.Number :=
  Js.Number_of (default "" (body_ID f)).


(** The form with another return code, or none. *)
Definition with_Return (f : AckForm) (Return : option string) : AckForm :=
  {| query_SN := query_SN f; body_SN := body_SN f; body_ID := body_ID f;
     body_Return := Return; body_CMD := body_CMD f |}.

(** A line that the loop takes as an acknowledgment: at least three fields,
    the first of which is the marker. *)
Definition well_formed (line : string) : Prop :=
  (3 ≤ length (Js.split ":" line))%nat ∧ Js.split ":" line !! 0 = Some "C".

Global Instance well_formed_dec line : Decision (well_formed line).
Proof. unfold well_formed. apply _. Defined.

(** The number that a line gives as command id: its second field. *)
Definition line_id (line : string) : Js.Number :=
  Js.Number_of (default "" (Js.split ":" line !! 1)).

(** The line [C:<idtext>:<result>]. *)
Definition ack_text (idtext result : string) : string :=
  "C:" +:+ idtext +:+ ":" +:+ result.


(** Along the array the ids increase. *)
Definition ids_sorted (h : list Command) (arr : list loc) : Prop :=
  ∀ i j li lj ci cj,
    arr !! i = Some li → arr !! j = Some lj → i < j →
    h !! li = Some ci → h !! lj = Some cj → (id ci < id cj)%N.


(** The command object that [queueCommand] creates. *)
Definition new_command (st : Store) (sn text now : string) : Command :=
  {| id := last_id st sn + 1; command := text; status := pending;
     queuedAt := now; sentAt := None; doneAt := None; deviceAck := None |}.

(** The requests of the scenario of the specification: a command is queued
    for A1, delivered, and acknowledged. *)
Definition scenario : list (string * Request) :=
  [("t0", QueueCommand (Some (JString "A1")) (Some (JString "CHECK")));
   ("t1", GetRequest (Some "A1"));
   ("t2", DeviceCmd (Some "A1") (Some "C:1:OK"))].

(** Two commands queued for A1 and delivered. *)
Definition two_sent : Store :=
  run [("t0", QueueCommand (Some (JString "A1")) (Some (JString "CHECK")));
       ("t1", QueueCommand (Some (JString "A1")) (Some (JString "INFO")));
       ("t2", GetRequest (Some "A1"))] init.

(** One command queued for A1. *)
Definition one_queued : Store :=
  run [("t0", QueueCommand (Some (JString "A1")) (Some (JString "CHECK")))] init.

(** A structured acknowledgment of command 1 of A1 that has no return code. *)
Definition form_without_Return : AckForm :=
  {| query_SN := Some "A1"; body_SN := None; body_ID := Some "1";
     body_Return := None; body_CMD := Some "CHECK" |}.

(** A structured acknowledgment of command 1 of A1 with the return code 0. *)
Definition form_ok : AckForm :=
  {| query_SN := Some "A1"; body_SN := None; body_ID := Some "1";
     body_Return := Some "0"; body_CMD := Some "CHECK" |}.

(** A structured acknowledgment without a command id. *)
Definition form_without_ID : AckForm :=
  {| query_SN := Some "A1"; body_SN := None; body_ID := None;
     body_Return := Some "0"; body_CMD := Some "CHECK" |}.

(** ** The vocabulary of the further properties *)

(** The device that a request is addressed to. *)
Definition device_of (r : Request) : string :=
  match r with
  | QueueCommand SN _ | RequestUsers SN | RequestAttendance SN =>
      default "" (String_of <$> SN)
  | GetRequest SN | DeviceCmd SN _ => default "" SN
  | DeviceCmdAspx f => form_SN f
  | Commands sn => sn
  end.

(** The request is a poll or an acknowledgment for the device [sn]: the
    requests that deliver or remove its commands. *)
Definition disturbs (sn : string) (r : Request) : bool :=
  match r with
  | GetRequest _ | DeviceCmd _ _ | DeviceCmdAspx _ =>
      bool_decide (device_of r = sn)
  | _ => false
  end.

(** The text that an enqueue route queues, when it accepts the request. *)
Definition enqueued_text (r : Request) : option string :=
  match r with
  | QueueCommand SN c =>
      if missing_value SN || missing_value c then None else String_of <$> c
  | RequestUsers SN => if missing_value SN then None else Some "CHECK"
  | RequestAttendance SN =>
      if missing_value SN then None else Some "DATA QUERY ATTLOG"
  | _ => None
  end.

(** How many requests of [rs] queued a command for [sn]. *)
Definition count_enqueues (sn : string) (rs : list (string * Request)) : nat :=
  length (filter (λ nr, is_Some (enqueued_text nr.2) ∧ device_of nr.2 = sn) rs).

(** The store after a poll that delivers the pending commands of [SN]. *)
Definition poll_store (SN now : string) (st : Store) : Store :=
  {| objects := mark_sent now (pendingFor st SN) (objects st);
     deviceCommands := deviceCommands st;
     deviceSeq := deviceSeq st |}.

(** What a request for the device [sn] can do to the store: nothing, queue
    one command, deliver the pending commands, or acknowledge commands. *)
Inductive Step (sn : string) (st : Store) : Store → Prop :=
| step_none : Step sn st st
| step_enqueue text now :
    Step sn st (queueCommand sn text now st).1.1
| step_poll now :
    sn ≠ "" → Step sn st (poll_store sn now st)
| step_ack st' :
    sn ≠ "" → rtc (ack_rel sn) st st' → Step sn st st'.

(** The place of a status in the life of a command. *)
Definition rank (s : Status) : nat :=
  match s with pending => 0 | sent => 1 | done => 2 end.

(** The time stamps and the acknowledgment of a command object fit its
    status. *)
Definition coherent (c : Command) : Prop :=
  match status c with
  | pending => sentAt c = None ∧ doneAt c = None ∧ deviceAck c = None
  | sent => is_Some (sentAt c) ∧ doneAt c = None ∧ deviceAck c = None
  | done => is_Some (doneAt c) ∧ is_Some (deviceAck c)
  end.

(** The batch request of [SN] that is the single line [line]. *)
Definition single_ack (SN : string) (now : string) (st : Store) (line : string)
  : Store :=
  store (devicecmd (Some SN) (Some line) now st).

(** An acknowledgment marks one object of the heap done. *)
Definition done_rel (h h' : list Command) : Prop :=
  ∃ l now ack, h' = alter (set_done now ack) l h.

(** What a request can do to the heap: nothing, add a pending command, mark
    pending commands sent, or mark commands done. *)
Inductive HeapStep (h : list Command) : list Command → Prop :=
| heap_same : HeapStep h h
| heap_new n text now :
    HeapStep h (h ++ [mkCommand n text pending now None None None])
| heap_sent now pend :
    Forall (is_pending h) pend → HeapStep h (mark_sent now pend h)
| heap_done h' : rtc done_rel h h' → HeapStep h h'.

(** An object of the heap stays at its location with its id, its text and
    its time of creation, and its status does not go back. *)
Definition grown (h h' : list Command) : Prop :=
  ∀ l c, h !! l = Some c →
    ∃ c', h' !! l = Some c' ∧ id c' = id c ∧ command c' = command c
          ∧ queuedAt c' = queuedAt c ∧ (rank (status c) ≤ rank (status c'))%nat.



Definition SN_field (r : Request) : option JsValue :=
  match r with
  | QueueCommand SN _ | RequestUsers SN | RequestAttendance SN => SN
  | _ => None
  end.

(** The SN of the request, if it has one that an enqueue route converts, is
    a text. *)
Definition text_SN (r : Request) : Prop :=
  match SN_field r with
  | Some (JString _) | None => True
  | Some _ => False
  end.

(** The command objects that the queue of a device holds, in its order. *)
Definition queue_commands (st : Store) (sn : string) : list Command :=
  omap (λ l, objects st !! l) (queue_of st sn).


(** ** The vocabulary of the tables *)

(** Some code unit of [s] is white space. *)
Fixpoint has_space (s : string) : bool :=
  match s with
  | String a s' => Js.is_white_space a || has_space s'
  | EmptyString => false
  end.

(** Every code unit of [s] is white space. *)
Fixpoint blank (s : string) : bool :=
  match s with
  | String a s' => Js.is_white_space a && blank s'
  | EmptyString => true
  end.

(** A token is a text without white space that is not empty; a separator is
    white space that is not empty. *)
Definition token (t : string) : Prop := t ≠ "" ∧ has_space t = false.

Definition separator (s : string) : Prop := s ≠ "" ∧ blank s = true.

(** The text of a token followed by further tokens, each after its
    separator. *)
Fixpoint weave (t : string) (rest : list (string * string)) : string :=
  match rest with
  | [] => t
  | (sep, t') :: rest' => t +:+ sep +:+ weave t' rest'
  end.

(** The lines of a body that the two tables read. *)
Definition attendance_lines (body : option string) : list string :=
  filter (λ l, l ≠ "") (body_lines (default "" body)).

Definition user_lines (body : option string) : list string :=
  filter (λ l, Js.startsWith "USER" l = true) (body_lines (default "" body)).

(** [x.PIN] *)
Definition pin (x : Obj) : option Value := x !! "PIN".

(** What [JSON.stringify] writes of the object is the object. *)
Definition clean (o : Obj) : Prop := map_Forall (λ _ v, json_value v = v) o.

(** A record of the attendance table: a PIN that is a token, a time stamp
    that is not empty, three further texts without white space, the time of
    receipt, perhaps the SN, and nothing else.  The SN is the value of a
    request field, which need not be a text; the other values are texts. *)
Definition attendance_record (e : Obj) : Prop :=
  (∃ t, e !! "PIN" = Some (VString t) ∧ token t)
  ∧ (∃ s, e !! "Timestamp" = Some (VString s) ∧ s ≠ "")
  ∧ (∀ k, k ∈ ["VerifyMode"; "InOutMode"; "WorkCode"] →
       ∃ s, e !! k = Some (VString s) ∧ has_space s = false)
  ∧ (∃ s, e !! "receivedAt" = Some (VString s))
  ∧ (∀ k v, e !! k = Some v →
       k ∈ ["PIN"; "Timestamp"; "VerifyMode"; "InOutMode"; "WorkCode"; "SN";
            "receivedAt"]
       ∧ (k ≠ "SN" → ∃ s, v = VString s)
       ∧ (k = "SN" → ∃ x, v = value_of x)).

Global Instance JsValue_eq_dec : EqDecision JsValue.
Proof.
  refine (fix go (x y : JsValue) {struct x} : Decision (x = y) :=
    match x, y with
    | JNull, JNull => left eq_refl
    | JBool a, JBool b => cast_if (decide (a = b))
    | JNumber a, JNumber b => cast_if (decide (a = b))
    | JString a, JString b => cast_if (decide (a = b))
    | JArray a, JArray b => cast_if (@list_eq_dec _ go a b)
    | _, _ => right _
    end); congruence.
Defined.

Global Instance Q_eq_dec : EqDecision Q.
Proof. solve_decision. Defined.

Global Instance Number_eq_dec : EqDecision Js.Number.
Proof. solve_decision. Defined.

Global Instance Value_eq_dec : EqDecision Value.
Proof. solve_decision. Defined.

(** The PIN is a text, or the object has none. *)
Definition text_pin (p : option Value) : Prop :=
  p = None ∨ ∃ s, p = Some (VString s).

(** A table of users: what [JSON.stringify] writes of it is the table, and
    the PINs of its objects are texts (or missing) and differ from one
    object to the other. *)
Definition user_table (l : list Obj) : Prop :=
  Forall clean l ∧ Forall (λ x, text_pin (pin x)) l ∧ NoDup (pin <$> l).

(** What an OPERLOG request stores for the user [u] of a line: a user whose
    PIN is in the table, or came earlier in the request, is updated. *)
Definition stored_user (now : string) (SN : option JsValue)
    (known : list (option Value)) (u : Obj) : Obj :=
  json (if decide (pin u ∈ known) then updated now SN u else created now SN u).

(** A text without white space and without the sign [=]. *)
Definition cut (s : string) : Prop :=
  has_space s = false ∧ Js.includes "=" s = false.

(** The name of a property that a line can set. *)
Definition field_name (k : string) : Prop :=
  k ≠ "" ∧ k ≠ "__proto__" ∧ cut k.

(** A property of a parsed user: a cut text under the name of a field, or
    the number of the privilege. *)
Definition user_property (k : string) (v : Value) : Prop :=
  field_name k
  ∧ match v with
    | VString s => cut s
    | VNumber _ => k = "Privilege"
    | VNull | VBool _ | VArray _ => False
    end.

(** The object has a property whose name starts with USER. *)
Definition tagged (x : Obj) : Prop :=
  ∃ k, Js.startsWith "USER" k = true ∧ is_Some (x !! k).

(** Solves [k ∈ l] for a key and a list that are given. *)
Ltac solve_key :=
  repeat first [apply list_elem_of_here | apply list_elem_of_further].

(** ** Strings: split and join *)

Module JsFacts.
Import Js.

Lemma app_String a s t : String a s +:+ t = String a (s +:+ t).
Proof. reflexivity. Qed.

Lemma app_empty_l t : "" +:+ t = t.
Proof. reflexivity. Qed.

Lemma app_empty_r s : s +:+ "" = s.
Proof.
  induction s as [|a s IH]; [reflexivity|]. rewrite app_String; congruence.
Qed.

Lemma app_assoc s t u : (s +:+ t) +:+ u = s +:+ (t +:+ u).
Proof.
  induction s as [|a s IH]; [reflexivity|]. rewrite !app_String; congruence.
Qed.

Lemma split_not_nil sep s : split sep s ≠ [].
Proof.
  destruct s as [|a s]; simpl; [done|].
  case_decide; [done|]. by destruct (split sep s).
Qed.

Lemma join_cons sep x y l :
  join sep (x :: y :: l) = x +:+ sep +:+ join sep (y :: l).
Proof. reflexivity. Qed.

Lemma join_cons_head sep a l :
  join sep (cons_head a l) = String a (join sep l).
Proof. destruct l as [|x [|y l]]; reflexivity. Qed.

(** Joining the pieces of a split gives the text back. *)
Lemma join_split sep s : join (String sep "") (split sep s) = s.
Proof.
  induction s as [|a s IH]; simpl; [done|].
  case_decide as Ha.
  - subst a. pose proof (split_not_nil sep s) as Hne.
    destruct (split sep s) as [|y l] eqn:E; [done|].
    rewrite join_cons, app_empty_l, app_String, app_empty_l. by rewrite IH.
  - by rewrite join_cons_head, IH.
Qed.

(** A text with no separator in it is the first piece of a split. *)
Lemma split_app sep a r :
  includes sep a = false →
  split sep (a +:+ String sep r) = a :: split sep r.
Proof.
  induction a as [|b a IH]; simpl; intros Hinc.
  - by rewrite decide_True.
  - apply orb_false_iff in Hinc as [Hb Ha].
    apply bool_decide_eq_false in Hb.
    rewrite decide_False by done. by rewrite IH.
Qed.




End JsFacts.

(** ** The text of an id is read back as that id *)

Module NumberFacts.
Import Js.

Lemma digits_string_snoc ds d s :
  digits_string (ds ++ [d]) +:+ s
  = digits_string ds +:+ String (pretty_N_char d) s.
Proof.
  induction ds as [|d' ds IH]; [done|].
  simpl. rewrite !JsFacts.app_String. by rewrite IH.
Qed.

Lemma digits_value_snoc ds d :
  digits_value 10 (ds ++ [d]) = (digits_value 10 ds * 10 + d)%N.
Proof. unfold digits_value. by rewrite foldl_app. Qed.

(** [pretty] writes the decimal digits of a number. *)
Lemma pretty_N_go_digits x s :
  ∃ ds, pretty_N_go x s = digits_string ds +:+ s
        ∧ Forall (λ d, d < 10)%N ds
        ∧ digits_value 10 ds = x
        ∧ (0 < x → ds ≠ [])%N.
Proof.
  revert s. induction (N.lt_wf_0 x) as [x _ IH]; intros s.
  destruct (decide (x = 0%N)) as [->|Hx].
  - exists []. rewrite pretty_N_go_0. split_and!; [done|done|done|lia].
  - rewrite pretty_N_go_step by lia.
    destruct (IH (x `div` 10)%N) with (s := String (pretty_N_char (x `mod` 10)) s)
      as (ds & -> & Hds & Hv & _).
    { apply N.div_lt; lia. }
    exists (ds ++ [x `mod` 10])%N. split_and!.
    + by rewrite digits_string_snoc.
    + apply Forall_app. split; [done|]. constructor; [|done].
      apply N.mod_lt. lia.
    + rewrite digits_value_snoc, Hv. rewrite (N.div_mod x 10) at 3 by lia. lia.
    + intros _. by destruct ds.
Qed.

Lemma to_string_digits (x : N) :
  ∃ d ds, to_string x = digits_string (d :: ds)
          ∧ Forall (λ d, d < 10)%N (d :: ds)
          ∧ digits_value 10 (d :: ds) = x.
Proof.
  unfold to_string, pretty, pretty_N. case_decide as Hx.
  - subst x. exists 0%N, []. split_and!; [done| |done].
    constructor; [lia|done].
  - destruct (pretty_N_go_digits x "") as (ds & E & Hds & Hv & Hne).
    destruct ds as [|d ds]; [destruct Hne; [lia|done]|].
    exists d, ds. by rewrite E, JsFacts.app_empty_r.
Qed.

Lemma digit_value_char (d : N) :
  (d < 10)%N → digit_value 10 (pretty_N_char d) = Some d.
Proof.
  intros Hd.
  assert (d = 0 ∨ d = 1 ∨ d = 2 ∨ d = 3 ∨ d = 4 ∨ d = 5 ∨ d = 6 ∨ d = 7
          ∨ d = 8 ∨ d = 9)%N as Hc by lia.
  repeat (destruct Hc as [->|Hc]; [reflexivity|]). by subst.
Qed.

(** A decimal digit is no white space, no sign, no [I] and no radix mark. *)
Lemma digit_char_cases (d : N) :
  pretty_N_char d ∈ ["0"; "1"; "2"; "3"; "4"; "5"; "6"; "7"; "8"; "9"]%char.
Proof. unfold pretty_N_char. repeat case_match; set_solver. Qed.

Lemma span_digits_string ds :
  Forall (λ d, d < 10)%N ds → span_digits 10 (digits_string ds) = (ds, "").
Proof.
  induction 1 as [|d ds Hd _ IH]; [done|].
  simpl. by rewrite digit_value_char, IH.
Qed.

Lemma trimEnd_digits ds : trimEnd (digits_string ds) = digits_string ds.
Proof.
  induction ds as [|d ds IH]; [done|].
  simpl. rewrite IH.
  assert (is_white_space (pretty_N_char d) = false) as ->.
  { unfold pretty_N_char. by repeat case_match. }
  by destruct (digits_string ds).
Qed.

Lemma trim_digits d ds : trim (digits_string (d :: ds)) = digits_string (d :: ds).
Proof.
  unfold trim.
  assert (trimStart (digits_string (d :: ds)) = digits_string (d :: ds)) as ->.
  { simpl. assert (is_white_space (pretty_N_char d) = false) as ->; [|done].
    unfold pretty_N_char. by repeat case_match. }
  apply trimEnd_digits.
Qed.

Lemma non_decimal_digits ds : non_decimal (digits_string ds) = None.
Proof.
  destruct ds as [|d [|d' ds]]; [done|..].
  - simpl. unfold pretty_N_char. by repeat case_match.
  - simpl. generalize (digits_string ds). intros s.
    pose proof (digit_char_cases d) as Hd.
    pose proof (digit_char_cases d') as Hd'.
    repeat (apply elem_of_cons in Hd as [->|Hd]);
      [..|by apply elem_of_nil in Hd]; try reflexivity.
    repeat (apply elem_of_cons in Hd' as [->|Hd']);
      [..|by apply elem_of_nil in Hd']; reflexivity.
Qed.

Lemma take_sign_digits d ds :
  take_sign (digits_string (d :: ds)) = (false, digits_string (d :: ds)).
Proof. simpl. unfold pretty_N_char. by repeat case_match. Qed.

Lemma digits_not_Infinity d ds : digits_string (d :: ds) ≠ "Infinity".
Proof. simpl. unfold pretty_N_char. by repeat case_match. Qed.

(** [Number(`${x}`) === x] *)
Lemma Number_of_to_string (x : N) : strict_eq x (Number_of (to_string x)) = true.
Proof.
  destruct (to_string_digits x) as (d & ds & -> & Hds & Hv).
  unfold Number_of. rewrite trim_digits.
  replace (falsy (digits_string (d :: ds))) with false by done.
  rewrite non_decimal_digits, take_sign_digits.
  rewrite decide_False by apply digits_not_Infinity.
  unfold unsigned_decimal. rewrite span_digits_string by done.
  rewrite app_nil_r. cbn [exponent_part length]. rewrite Hv.
  unfold strict_eq. apply Qeq_bool_iff.
  change (Qpower (inject_Z 10) (0 - Z.of_nat 0)) with 1%Q.
  by rewrite Qmult_1_r.
Qed.

(** The text of an id holds no separator. *)
Lemma to_string_no_colon (x : N) : Js.includes ":" (to_string x) = false.
Proof.
  destruct (to_string_digits x) as (d & ds & -> & _ & _).
  generalize (d :: ds). clear. intros ds.
  induction ds as [|d ds IH]; [done|].
  simpl. rewrite IH, orb_false_r. apply bool_decide_eq_false.
  unfold pretty_N_char. by repeat case_match.
Qed.

End NumberFacts.

(** ** The effect of each operation on the store *)

Section StoreFacts.
Implicit Types (st : Store) (h : list Command) (m : gmap string (list loc)).
Implicit Types (SN sn now : string) (arr q : list loc) (l : loc).

Lemma lookup_update_queue SN arr m sn :
  default [] (update_queue SN arr m !! sn)
  = if decide (sn = SN) then arr else default [] (m !! sn).
Proof.
  unfold update_queue. case_decide as Hlen; case_decide as Hsn; subst.
  - rewrite lookup_delete_eq. by destruct arr.
  - by rewrite lookup_delete_ne.
  - by rewrite lookup_insert_eq.
  - by rewrite lookup_insert_ne.
Qed.

Lemma update_queue_twice SN arr arr' m :
  update_queue SN arr (update_queue SN arr' m) = update_queue SN arr m.
Proof.
  unfold update_queue. repeat case_decide.
  - by rewrite delete_delete_eq.
  - by rewrite delete_insert_eq.
  - by rewrite insert_delete_eq.
  - by rewrite insert_insert_eq.
Qed.

Lemma update_queue_ne SN arr m :
  update_queue SN arr m !! SN ≠ Some [].
Proof.
  unfold update_queue. case_decide as Hlen.
  - by rewrite lookup_delete_eq.
  - rewrite lookup_insert_eq. intros [= ->]. by apply Hlen.
Qed.

Lemma update_queue_same st SN :
  deviceCommands st !! SN ≠ Some [] →
  update_queue SN (queue_of st SN) (deviceCommands st) = deviceCommands st.
Proof.
  intros Hne. unfold update_queue, queue_of.
  destruct (deviceCommands st !! SN) as [[|l q]|] eqn:E; [done|..].
  - by apply insert_id.
  - by apply delete_id.
Qed.

Lemma queue_of_loop_store SN st0 s sn :
  queue_of (loop_store SN st0 s) sn
  = if decide (sn = SN) then loop_arr s else queue_of st0 sn.
Proof. apply lookup_update_queue. Qed.

Lemma queue_of_ack_store SN idx l now ack st sn :
  queue_of (ack_store SN idx l now ack st) sn
  = if decide (sn = SN) then delete idx (queue_of st SN) else queue_of st sn.
Proof. apply lookup_update_queue. Qed.

Lemma loop_store_start SN st log :
  deviceCommands st !! SN ≠ Some [] →
  loop_store SN st (mkAckLoop (objects st) (queue_of st SN) log) = st.
Proof.
  intros Hne. unfold loop_store. simpl.
  rewrite update_queue_same by done. by destruct st.
Qed.

(** A line of the batch leaves the heap and the array alone, or is one
    matched acknowledgment. *)
Lemma ack_line_cases SN now s line :
  let s' := ack_line SN now s line in
  (loop_objects s' = loop_objects s ∧ loop_arr s' = loop_arr s)
  ∨ (∃ v idx l ack,
       findIndex (loop_objects s) v (loop_arr s) = Some (idx, l)
       ∧ loop_objects s' = alter (set_done now ack) l (loop_objects s)
       ∧ loop_arr s' = delete idx (loop_arr s)).
Proof.
  unfold ack_line. case_decide; [by left|].
  destruct (findIndex _ _ _) as [[idx l]|] eqn:E; [|by left].
  right. by eexists _, idx, l, _.
Qed.

Lemma ack_line_rel SN st0 now s line :
  let s' := ack_line SN now s line in
  loop_store SN st0 s' = loop_store SN st0 s
  ∨ ack_rel SN (loop_store SN st0 s) (loop_store SN st0 s').
Proof.
  intros s'. destruct (ack_line_cases SN now s line)
    as [[Hh Ha]|(v & idx & l & ack & Hf & Hh & Ha)]; fold s' in Hh, Ha.
  - left. unfold loop_store. by rewrite Hh, Ha.
  - right. exists v, idx, l, now, ack. split.
    + rewrite queue_of_loop_store, decide_True by done. done.
    + unfold ack_store. rewrite queue_of_loop_store, decide_True by done.
      unfold loop_store. simpl. rewrite Hh, Ha. f_equal.
      by rewrite update_queue_twice.
Qed.

Lemma ack_loop_rtc SN st0 now lines s :
  rtc (ack_rel SN) (loop_store SN st0 s)
      (loop_store SN st0 (foldl (ack_line SN now) s lines)).
Proof.
  revert s. induction lines as [|line lines IH]; intros s; simpl; [done|].
  destruct (ack_line_rel SN st0 now s line) as [E|R].
  - specialize (IH (ack_line SN now s line)). by rewrite E in IH.
  - by eapply rtc_l.
Qed.

(** The store after a batch acknowledgment. *)
Lemma devicecmd_store qSN qinfo now st :
  store (devicecmd qSN qinfo now st) = st
  ∨ ∃ SN info log,
      qSN = Some SN ∧ qinfo = Some info ∧ SN ≠ "" ∧ info ≠ ""
      ∧ store (devicecmd qSN qinfo now st)
        = loop_store SN st
            (foldl (ack_line SN now)
               (mkAckLoop (objects st) (queue_of st SN) log) (info_lines info)).
Proof.
  unfold devicecmd.
  destruct qSN as [SN|], qinfo as [info|]; simpl; try by left.
  - destruct (Js.falsy SN) eqn:E1; [by left|].
    destruct (Js.falsy info) eqn:E2; [by left|]. simpl.
    apply bool_decide_eq_false in E1, E2.
    right. by eexists SN, info, _.
  - destruct (Js.falsy SN); by left.
Qed.

Lemma devicecmd_rtc qSN qinfo now st :
  deviceCommands st !! default "" qSN ≠ Some [] →
  rtc (ack_rel (default "" qSN)) st (store (devicecmd qSN qinfo now st)).
Proof.
  intros Hne.
  destruct (devicecmd_store qSN qinfo now st)
    as [->|(SN & info & log & -> & -> & _ & _ & ->)]; [done|].
  simpl in *.
  rewrite <-(loop_store_start SN st log) at 1 by done.
  apply ack_loop_rtc.
Qed.

(** The store after a structured acknowledgment. *)
Lemma devicecmd_aspx_store f now st :
  store (devicecmd_aspx f now st) = st
  ∨ ∃ SN, SN ≠ "" ∧ ack_rel SN st (store (devicecmd_aspx f now st)).
Proof.
  unfold devicecmd_aspx.
  set (SN := form_SN f).
  destruct (Js.falsy SN) eqn:E1; simpl; [by left|].
  destruct (Js.missing (body_ID f) || Js.missing (body_CMD f)); [by left|].
  destruct (findIndex _ _ _) as [[idx l]|] eqn:E; [|by left].
  right. exists SN. split; [by apply bool_decide_eq_false in E1|].
  by eexists _, idx, l, now, _.
Qed.

(** The heap after a poll has marked the pending commands. *)
Lemma lookup_mark_sent now pend h l :
  mark_sent now pend h !! l
  = if decide (l ∈ pend) then set_sent now <$> h !! l else h !! l.
Proof.
  unfold mark_sent. revert h.
  induction pend as [|a pend IH]; intros h; simpl; [done|].
  rewrite IH.
  destruct (decide (a = l)) as [->|Hne].
  - rewrite list_lookup_alter_eq, (decide_True (P := l ∈ l :: pend)) by by left.
    destruct (decide (l ∈ pend)); [|done]. destruct (h !! l); reflexivity.
  - rewrite list_lookup_alter_ne by done.
    destruct (decide (l ∈ pend)) as [Hin|Hin].
    + by rewrite decide_True by by right.
    + rewrite decide_False; [done|].
      by intros [?|?]%elem_of_cons.
Qed.

(** The store after a poll. *)
Lemma getrequest_store qSN now st :
  let SN := default "" qSN in
  store (getrequest qSN now st) =
    if decide (SN = "" ∨ pendingFor st SN = []) then st
    else {| objects := mark_sent now (pendingFor st SN) (objects st);
            deviceCommands := deviceCommands st;
            deviceSeq := deviceSeq st |}.
Proof.
  intros SN. unfold getrequest. fold SN.
  destruct (Js.falsy SN) eqn:E1.
  { apply bool_decide_eq_true in E1. by rewrite decide_True by auto. }
  apply bool_decide_eq_false in E1.
  fold (pendingFor st SN).
  destruct (pendingFor st SN) as [|l pend] eqn:Ep; simpl.
  { by rewrite decide_True by auto. }
  rewrite decide_False by (intros [?|?]; done).
  f_equal. apply insert_id.
  unfold pendingFor, queue_of in *.
  by destruct (deviceCommands st !! SN).
Qed.

(** The store after [queueCommand]. *)
Lemma queueCommand_store sn text now st :
  queueCommand sn text now st =
    (let n := (default 0 (deviceSeq st !! sn) + 1)%N in
     ({| objects := objects st ++ [mkCommand n text pending now None None None];
         deviceCommands := <[sn := queue_of st sn ++ [length (objects st)]]> (deviceCommands st);
         deviceSeq := <[sn := n]> (deviceSeq st) |},
      length (objects st), [LogQueued sn n text])).
Proof. reflexivity. Qed.

End StoreFacts.

(** ** The invariant of the store *)

Section Invariant.
Implicit Types (st : Store) (h : list Command).
Implicit Types (SN sn now : string) (q : list loc) (l : loc).

Lemma Inv_init : Inv init.
Proof.
  split; unfold queue_of; simpl.
  - intros sn. by rewrite lookup_empty.
  - intros sn l. rewrite lookup_empty. simpl. by intros ?%elem_of_nil.
  - intros sn i j li lj ci cj. by rewrite lookup_empty.
  - intros sn1 sn2 l. rewrite lookup_empty. simpl. by intros ?%elem_of_nil.
Qed.

Lemma Inv_NoDup st sn : Inv st → NoDup (queue_of st sn).
Proof.
  intros HI. apply NoDup_alt. intros i j l Hi Hj.
  destruct (inv_live st HI sn l) as (c & Hc & _).
  { by eapply list_elem_of_lookup_2. }
  destruct (Nat.lt_total i j) as [Hlt|[Heq|Hlt]]; [|done|].
  - pose proof (inv_sorted st HI sn i j l l c c Hi Hj Hlt Hc Hc). lia.
  - pose proof (inv_sorted st HI sn j i l l c c Hj Hi Hlt Hc Hc). lia.
Qed.

Lemma not_elem_of_delete q idx l :
  NoDup q → q !! idx = Some l → l ∉ delete idx q.
Proof.
  intros Hnd Hl Hin.
  apply list_elem_of_lookup in Hin as [j Hj].
  rewrite list_lookup_delete in Hj.
  case_decide as Hlt.
  - pose proof (NoDup_lookup _ _ _ _ Hnd Hl Hj). lia.
  - pose proof (NoDup_lookup _ _ _ _ Hnd Hl Hj). lia.
Qed.

(** The objects held by the arrays may change, as long as they keep their
    id and do not become [done]. *)
Lemma Inv_heap st h' :
  Inv st →
  (∀ sn l c, l ∈ queue_of st sn → objects st !! l = Some c →
     ∃ c', h' !! l = Some c' ∧ id c' = id c ∧ status c' ≠ done) →
  Inv {| objects := h'; deviceCommands := deviceCommands st;
         deviceSeq := deviceSeq st |}.
Proof.
  intros HI Hh. split; unfold queue_of in *; simpl.
  - apply (inv_nonempty st HI).
  - intros sn l Hl.
    destruct (inv_live st HI sn l Hl) as (c & Hc & Hs & Hid).
    destruct (Hh sn l c Hl Hc) as (c' & Hc' & Hid' & Hs').
    exists c'. by rewrite Hid'.
  - intros sn i j li lj ci' cj' Hi Hj Hlt Hci' Hcj'.
    assert (li ∈ default [] (deviceCommands st !! sn)) as Hli
      by by eapply list_elem_of_lookup_2.
    assert (lj ∈ default [] (deviceCommands st !! sn)) as Hlj
      by by eapply list_elem_of_lookup_2.
    destruct (inv_live st HI sn li Hli) as (ci & Hci & _).
    destruct (inv_live st HI sn lj Hlj) as (cj & Hcj & _).
    destruct (Hh sn li ci Hli Hci) as (ci2 & Hci2 & Hidi & _).
    destruct (Hh sn lj cj Hlj Hcj) as (cj2 & Hcj2 & Hidj & _).
    simplify_eq. rewrite Hidi, Hidj.
    by eapply (inv_sorted st HI sn i j li lj).
  - apply (inv_owner st HI).
Qed.

(** A command may leave the array of its device. *)
Lemma Inv_delete st SN idx :
  Inv st →
  Inv {| objects := objects st;
         deviceCommands :=
           update_queue SN (delete idx (queue_of st SN)) (deviceCommands st);
         deviceSeq := deviceSeq st |}.
Proof.
  intros HI. set (st' := mkStore _ _ _).
  assert (∀ sn, queue_of st' sn
    = if decide (sn = SN) then delete idx (queue_of st SN) else queue_of st sn)
    as Hq by (intros; apply lookup_update_queue).
  assert (∀ sn l, l ∈ queue_of st' sn → l ∈ queue_of st sn) as Hsub.
  { intros sn l. rewrite Hq. case_decide; [subst|done].
    apply list_elem_of_delete_inv. }
  split.
  - intros sn. simpl. destruct (decide (sn = SN)) as [->|Hne].
    + apply update_queue_ne.
    + unfold update_queue. case_decide.
      * rewrite lookup_delete_ne by done. apply (inv_nonempty st HI).
      * rewrite lookup_insert_ne by done. apply (inv_nonempty st HI).
  - intros sn l Hl. apply (inv_live st HI), Hsub, Hl.
  - intros sn i j li lj ci cj. rewrite Hq. simpl. case_decide; [subst|].
    + rewrite !list_lookup_delete. intros Hi Hj Hlt.
      eapply (inv_sorted st HI SN); [exact Hi|exact Hj|].
      repeat case_decide; lia.
    + apply (inv_sorted st HI sn).
  - intros sn1 sn2 l H1 H2.
    apply (inv_owner st HI sn1 sn2 l); by apply Hsub.
Qed.

(** One matched acknowledgment keeps the invariant. *)
Lemma Inv_ack_rel SN st st' : Inv st → ack_rel SN st st' → Inv st'.
Proof.
  intros HI (v & idx & l & now & ack & Hf & ->).
  apply list_find_Some in Hf as (Hl & _ & _).
  pose proof (Inv_delete st SN idx HI) as HD.
  apply (Inv_heap _ (alter (set_done now ack) l (objects st))) in HD; [done|].
  intros sn l' c.
  change (queue_of _ sn) with (queue_of (ack_store SN idx l now ack st) sn).
  rewrite queue_of_ack_store. simpl. intros Hl' Hc.
  assert (l' ≠ l ∧ l' ∈ queue_of st sn) as [Hne Hin].
  { case_decide; [subst sn|].
    - split; [|by eapply list_elem_of_delete_inv].
      intros ->. revert Hl'. apply not_elem_of_delete; [|done].
      by apply Inv_NoDup.
    - split; [|done]. intros ->.
      assert (l ∈ queue_of st SN) by by eapply list_elem_of_lookup_2.
      by pose proof (inv_owner st HI sn SN l Hl' ltac:(done)). }
  exists c. rewrite list_lookup_alter_ne by done.
  destruct (inv_live st HI sn l' Hin) as (c2 & Hc2 & Hs & _).
  by simplify_eq.
Qed.

Lemma Inv_ack_rtc SN st st' : Inv st → rtc (ack_rel SN) st st' → Inv st'.
Proof. intros HI R. induction R; eauto using Inv_ack_rel. Qed.

Lemma Inv_devicecmd qSN qinfo now st :
  Inv st → Inv (store (devicecmd qSN qinfo now st)).
Proof.
  intros HI. eapply Inv_ack_rtc; [done|].
  apply devicecmd_rtc, (inv_nonempty st HI).
Qed.

Lemma Inv_devicecmd_aspx f now st :
  Inv st → Inv (store (devicecmd_aspx f now st)).
Proof.
  intros HI. destruct (devicecmd_aspx_store f now st) as [->|(SN & _ & R)];
    eauto using Inv_ack_rel.
Qed.

Lemma Inv_getrequest qSN now st :
  Inv st → Inv (store (getrequest qSN now st)).
Proof.
  intros HI. rewrite getrequest_store. case_decide; [done|].
  apply (Inv_heap st); [done|].
  intros sn l c Hl Hc. rewrite lookup_mark_sent, Hc.
  case_decide; simpl; [by eexists|].
  destruct (inv_live st HI sn l Hl) as (c2 & Hc2 & Hs & _).
  exists c. by simplify_eq.
Qed.

Lemma queue_of_queueCommand sn text now st sn' :
  queue_of (queueCommand sn text now st).1.1 sn'
  = if decide (sn' = sn) then queue_of st sn ++ [length (objects st)]
    else queue_of st sn'.
Proof.
  rewrite queueCommand_store. unfold queue_of at 1. simpl.
  case_decide; [subst; by rewrite lookup_insert_eq|].
  by rewrite lookup_insert_ne.
Qed.

Lemma Inv_queueCommand sn text now st :
  Inv st → Inv (queueCommand sn text now st).1.1.
Proof.
  intros HI.
  assert (∀ sn' l, l ∈ queue_of st sn' → l < length (objects st)) as Hlt.
  { intros sn' l Hl. destruct (inv_live st HI sn' l Hl) as (c & Hc & _).
    by eapply lookup_lt_Some. }
  split.
  - intros sn'. rewrite queueCommand_store. simpl.
    destruct (decide (sn' = sn)) as [->|Hne].
    + rewrite lookup_insert_eq. intros [= E]. by destruct (queue_of st sn).
    + rewrite lookup_insert_ne by done. apply (inv_nonempty st HI).
  - intros sn' l. rewrite queue_of_queueCommand, queueCommand_store. simpl.
    case_decide as Hsn; [subst sn'|].
    + rewrite lookup_insert_eq. simpl.
      intros [Hl| ->%list_elem_of_singleton]%elem_of_app.
      * destruct (inv_live st HI sn l Hl) as (c & Hc & Hs & Hid).
        exists c. rewrite lookup_app_l by eauto. repeat split; try done; lia.
      * eexists. rewrite lookup_app_r, Nat.sub_diag by done.
        split; [reflexivity|]. simpl. split; [done|lia].
    + rewrite lookup_insert_ne by done. intros Hl.
      destruct (inv_live st HI sn' l Hl) as (c & Hc & Hs & Hid).
      exists c. by rewrite lookup_app_l by eauto.
  - intros sn' i j li lj ci cj.
    rewrite queue_of_queueCommand, queueCommand_store. simpl.
    case_decide as Hsn; [subst sn'|].
    + intros Hi Hj Hij Hci Hcj.
      assert (i < length (queue_of st sn)) as Hi'.
      { apply lookup_lt_Some in Hj. rewrite length_app in Hj. simpl in Hj. lia. }
      rewrite lookup_app_l in Hi by done.
      assert (li ∈ queue_of st sn) as Hli by by eapply list_elem_of_lookup_2.
      rewrite lookup_app_l in Hci by eauto.
      destruct (decide (j < length (queue_of st sn))) as [Hj'|Hj'].
      * rewrite lookup_app_l in Hj by done.
        assert (lj ∈ queue_of st sn) by by eapply list_elem_of_lookup_2.
        rewrite lookup_app_l in Hcj by eauto.
        by eapply (inv_sorted st HI sn i j).
      * rewrite lookup_app_r in Hj by lia.
        apply list_lookup_singleton_Some in Hj as [_ <-].
        rewrite lookup_app_r, Nat.sub_diag in Hcj by done.
        injection Hcj as <-. simpl.
        destruct (inv_live st HI sn li Hli) as (c & Hc & _ & Hid).
        simplify_eq. lia.
    + intros Hi Hj Hij Hci Hcj.
      assert (li ∈ queue_of st sn') by by eapply list_elem_of_lookup_2.
      assert (lj ∈ queue_of st sn') by by eapply list_elem_of_lookup_2.
      rewrite lookup_app_l in Hci, Hcj by eauto.
      by eapply (inv_sorted st HI sn' i j).
  - intros sn1 sn2 l. rewrite !queue_of_queueCommand.
    assert (∀ sn', l ∈ queue_of st sn ++ [length (objects st)] →
              l ∈ queue_of st sn' → sn' = sn) as Hnew.
    { intros sn' [Hl| ->%list_elem_of_singleton]%elem_of_app Hl'.
      - by apply (inv_owner st HI sn' sn l).
      - apply Hlt in Hl'. lia. }
    repeat case_decide; subst; try done.
    + intros H1 H2. symmetry. by apply Hnew.
    + intros H1 H2. by apply Hnew.
    + apply (inv_owner st HI).
Qed.

Lemma store_queued r log0 : store (queued r log0) = r.1.1.
Proof. by destruct r as [[??]?]. Qed.

(** Every request keeps the invariant. *)
Lemma Inv_handle now r st : Inv st → Inv (store (handle now r st)).
Proof.
  intros HI. destruct r; simpl.
  - unfold queue_command. destruct (_ || _); [done|].
    rewrite store_queued. by apply Inv_queueCommand.
  - unfold request_users. destruct (missing_value _); [done|].
    rewrite store_queued. by apply Inv_queueCommand.
  - unfold request_attendance. destruct (missing_value _); [done|].
    rewrite store_queued. by apply Inv_queueCommand.
  - by apply Inv_getrequest.
  - by apply Inv_devicecmd.
  - by apply Inv_devicecmd_aspx.
  - done.
Qed.

Lemma run_snoc rs now r st :
  run (rs ++ [(now, r)]) st = store (handle now r (run rs st)).
Proof. unfold run. by rewrite foldl_app. Qed.

Lemma Inv_run rs st : Inv st → Inv (run rs st).
Proof.
  induction rs as [|[now r] rs IH] using rev_ind; intros HI; [done|].
  rewrite run_snoc. by apply Inv_handle, IH.
Qed.

(** The invariant holds of every store the server reaches. *)
Lemma Inv_reachable rs : Inv (run rs init).
Proof. apply Inv_run, Inv_init. Qed.

End Invariant.

(** ** The per-device sequencer *)

Section Sequencer.
Implicit Types (st : Store) (sn text now : string).

Lemma queued_id_queueCommand sn text now st :
  queued_id (queueCommand sn text now st) = Some (last_id st sn + 1)%N.
Proof.
  rewrite queueCommand_store. unfold queued_id. simpl.
  by rewrite lookup_app_r, Nat.sub_diag.
Qed.

Lemma last_id_queueCommand sn text now st sn' :
  last_id (queueCommand sn text now st).1.1 sn'
  = if decide (sn' = sn) then (last_id st sn + 1)%N else last_id st sn'.
Proof.
  rewrite queueCommand_store. unfold last_id. simpl.
  case_decide; [subst; by rewrite lookup_insert_eq|].
  by rewrite lookup_insert_ne.
Qed.

Lemma deviceSeq_ack_rtc SN st st' :
  rtc (ack_rel SN) st st' → deviceSeq st' = deviceSeq st.
Proof.
  induction 1 as [|st1 st2 st3 (v & idx & l & now & ack & _ & ->) _ IH];
    [done|]. by rewrite IH.
Qed.

Lemma deviceSeq_devicecmd qSN qinfo now st :
  deviceSeq (store (devicecmd qSN qinfo now st)) = deviceSeq st.
Proof.
  destruct (devicecmd_store qSN qinfo now st)
    as [->|(SN & info & log & _ & _ & _ & _ & ->)]; done.
Qed.

Lemma deviceSeq_devicecmd_aspx f now st :
  deviceSeq (store (devicecmd_aspx f now st)) = deviceSeq st.
Proof.
  destruct (devicecmd_aspx_store f now st) as [->|(SN & _ & R)]; [done|].
  apply (deviceSeq_ack_rtc SN). by apply rtc_once.
Qed.

Lemma deviceSeq_getrequest qSN now st :
  deviceSeq (store (getrequest qSN now st)) = deviceSeq st.
Proof. rewrite getrequest_store. by case_decide. Qed.

(** No request lowers the counter of a device. *)
Lemma last_id_handle now r st sn :
  (last_id st sn ≤ last_id (store (handle now r st)) sn)%N.
Proof.
  assert (∀ sn0 text, last_id st sn
    ≤ last_id (queueCommand sn0 text now st).1.1 sn)%N as Hq.
  { intros sn0 text. rewrite last_id_queueCommand. case_decide; subst; lia. }
  destruct r; simpl.
  - unfold queue_command. destruct (_ || _); [done|].
    rewrite store_queued. apply Hq.
  - unfold request_users. destruct (missing_value _); [done|].
    rewrite store_queued. apply Hq.
  - unfold request_attendance. destruct (missing_value _); [done|].
    rewrite store_queued. apply Hq.
  - unfold last_id. by rewrite deviceSeq_getrequest.
  - unfold last_id. by rewrite deviceSeq_devicecmd.
  - unfold last_id. by rewrite deviceSeq_devicecmd_aspx.
  - done.
Qed.

Lemma last_id_run rs st sn : (last_id st sn ≤ last_id (run rs st) sn)%N.
Proof.
  induction rs as [|[now r] rs IH] using rev_ind; [done|].
  rewrite run_snoc. etrans; [apply IH|apply last_id_handle].
Qed.

End Sequencer.

(** C8: the ids that [queueCommand] gives to the commands of one device start
    at 1 (the id is the last id of the device plus one, and no device has a
    last id when the server starts), and of two calls for the same device the
    later one gives the larger id, whatever requests the server handled in
    between; so no id is given twice.  This also holds after the array of
    the device has been deleted from [deviceCommands]: in the scenario the
    acknowledgment deletes the entry of A1 and the next id of A1 is 2. *)
Theorem ids_strictly_increasing :
  (∀ sn text now, queued_id (queueCommand sn text now init) = Some 1%N)
  ∧ (∀ st sn text now,
       queued_id (queueCommand sn text now st) = Some (last_id st sn + 1)%N)
  ∧ (∀ st sn text1 now1 rs text2 now2,
       let r1 := queueCommand sn text1 now1 st in
       let r2 := queueCommand sn text2 now2 (run rs r1.1.1) in
       ∃ i1 i2, queued_id r1 = Some i1 ∧ queued_id r2 = Some i2 ∧ (i1 < i2)%N)
  ∧ (deviceCommands (run scenario init) !! "A1" = None
     ∧ queued_id (queueCommand "A1" "CHECK" "t3" (run scenario init)) = Some 2%N).
Proof.
  split_and!.
  - intros. by rewrite queued_id_queueCommand.
  - intros. apply queued_id_queueCommand.
  - intros st sn text1 now1 rs text2 now2 r1 r2.
    exists (last_id st sn + 1)%N, (last_id (run rs r1.1.1) sn + 1)%N.
    split_and!; [apply queued_id_queueCommand..|].
    pose proof (last_id_run rs r1.1.1 sn) as Hle.
    unfold r1 in Hle at 1. rewrite last_id_queueCommand, decide_True in Hle by done.
    lia.
  - by vm_compute.
  - by vm_compute.
Qed.

(** ** No command of a queue is done *)


(** ** Polling *)

Section Poll.
Implicit Types (st : Store) (h : list Command) (pend : list loc).


Lemma Forall_pendingFor st SN : Forall (is_pending (objects st)) (pendingFor st SN).
Proof. apply Forall_forall. intros l. unfold pendingFor. by intros [? _]%list_elem_of_filter. Qed.





Lemma StronglySorted_lookup {A} (R : relation A) (l : list A) :
  (∀ i j x y, l !! i = Some x → l !! j = Some y → i < j → R x y) →
  StronglySorted R l.
Proof.
  induction l as [|a l IH]; intros H; constructor.
  - apply IH. intros i j x y Hi Hj Hij. apply (H (S i) (S j)); [done..|lia].
  - apply Forall_forall. intros y [j Hj]%list_elem_of_lookup.
    apply (H 0 (S j)); [done..|lia].
Qed.



End Poll.


(** ** Acknowledgments: the structured form *)

Section StructuredAck.
Implicit Types (st : Store) (f : AckForm) (now : string).

Lemma devicecmd_aspx_incomplete f now st :
  form_incomplete f = true →
  devicecmd_aspx f now st = mkOutcome st (Text "OK") [].
Proof. unfold form_incomplete, devicecmd_aspx. by intros ->. Qed.

Lemma devicecmd_aspx_found f now st idx l :
  form_incomplete f = false →
  findIndex (objects st) (form_id f) (queue_of st (form_SN f)) = Some (idx, l) →
  devicecmd_aspx f now st
  = mkOutcome (ack_store (form_SN f) idx l now (form_ack f) st) (Text "OK")
      [LogAcknowledgedForm (default "" (body_ID f)) (default "" (body_CMD f))
         (form_SN f) (body_Return f)].
Proof.
  unfold form_incomplete, devicecmd_aspx, form_id. intros -> Hf.
  by rewrite Hf.
Qed.

Lemma devicecmd_aspx_unknown f now st :
  form_incomplete f = false →
  findIndex (objects st) (form_id f) (queue_of st (form_SN f)) = None →
  devicecmd_aspx f now st
  = mkOutcome st (Text "OK")
      [LogUnknownForm (default "" (body_ID f)) (default "" (body_CMD f))
         (form_SN f)].
Proof.
  unfold form_incomplete, devicecmd_aspx, form_id. intros -> Hf.
  by rewrite Hf.
Qed.

Lemma devicecmd_aspx_response f now st :
  response (devicecmd_aspx f now st) = Text "OK".
Proof.
  destruct (form_incomplete f) eqn:E.
  - by rewrite devicecmd_aspx_incomplete.
  - destruct (findIndex (objects st) (form_id f) (queue_of st (form_SN f)))
      as [[idx l]|] eqn:Hf.
    + by erewrite devicecmd_aspx_found.
    + by rewrite devicecmd_aspx_unknown.
Qed.

End StructuredAck.

(** C7: when the structured form acknowledges a command (the form is
    complete and [findIndex] finds the id at [idx], where the array holds the
    object [l]), the [deviceAck] of that object becomes [OK] if the return
    code is the text [0], and [ERR] for every other return code, a missing
    one included. *)
Theorem return_code_maps_to_ack (f : AckForm) (now : string) (st : Store)
    (idx : nat) (l : loc) (c : Command) :
  form_incomplete f = false →
  findIndex (objects st) (form_id f) (queue_of st (form_SN f)) = Some (idx, l) →
  objects st !! l = Some c →
  ∃ c', objects (store (devicecmd_aspx f now st)) !! l = Some c'
        ∧ status c' = done
        ∧ deviceAck c' =
            Some (if decide (body_Return f = Some "0") then "OK" else "ERR").
Proof.
  intros Hf Hfind Hc. rewrite (devicecmd_aspx_found f now st idx l) by done.
  simpl. rewrite list_lookup_alter_eq, Hc. simpl. by eexists.
Qed.


(** ** Acknowledgments: the batch form *)

Section BatchAck.
Implicit Types (st : Store) (h : list Command) (arr : list loc).
Implicit Types (s : AckLoop) (SN now line : string) (v : Js.Number).




(** A well-formed line with an id that a command of the array has. *)
Lemma ack_line_found SN now s line idx l :
  well_formed line →
  findIndex (loop_objects s) (line_id line) (loop_arr s) = Some (idx, l) →
  let status := Js.join ":" (drop 2 (Js.split ":" line)) in
  let h := alter (set_done now status) l (loop_objects s) in
  ack_line SN now s line
  = mkAckLoop h (delete idx (loop_arr s))
      (loop_console s
       ++ [LogAcknowledged (line_id line) (command <$> h !! l) SN status]).
Proof.
  intros [Hlen H0] Hf. unfold ack_line. rewrite decide_False.
  2:{ intros [?|?]; [lia|done]. }
  fold (line_id line). by rewrite Hf.
Qed.

(** The fields of the line [C:<idtext>:<result>]. *)
Lemma split_ack_text idtext result :
  Js.includes ":" idtext = false →
  Js.split ":" (ack_text idtext result)
  = "C" :: idtext :: Js.split ":" result.
Proof.
  intros Hid. unfold ack_text.
  change ("C:" +:+ idtext +:+ ":" +:+ result)
    with ("C" +:+ String ":" (idtext +:+ String ":" result)).
  rewrite JsFacts.split_app by done. by rewrite JsFacts.split_app.
Qed.

Lemma well_formed_ack_text idtext result :
  Js.includes ":" idtext = false → well_formed (ack_text idtext result).
Proof.
  intros Hid. unfold well_formed. rewrite split_ack_text by done.
  split; [|done]. pose proof (JsFacts.split_not_nil ":" result).
  destruct (Js.split ":" result); [done|]. simpl. lia.
Qed.


Lemma line_id_ack_text idtext result :
  Js.includes ":" idtext = false →
  line_id (ack_text idtext result) = Js.Number_of idtext.
Proof. intros Hid. unfold line_id. by rewrite split_ack_text. Qed.

Lemma status_ack_text idtext result :
  Js.includes ":" idtext = false →
  Js.join ":" (drop 2 (Js.split ":" (ack_text idtext result))) = result.
Proof.
  intros Hid. rewrite split_ack_text by done. simpl.
  apply JsFacts.join_split.
Qed.


End BatchAck.

(** ** Matching an id *)

Section Matching.
Implicit Types (st : Store) (h : list Command) (arr : list loc).
Implicit Types (s : AckLoop) (SN now line : string) (v : Js.Number).

Lemma strict_eq_inj (a b : N) v :
  Js.strict_eq a v = true → Js.strict_eq b v = true → a = b.
Proof.
  destruct v as [| |q]; simpl; [done..|].
  intros Ha%Qeq_bool_iff Hb%Qeq_bool_iff.
  rewrite <-Hb in Ha. unfold Qeq in Ha. simpl in Ha. lia.
Qed.


Lemma ids_sorted_Inv st SN : Inv st → ids_sorted (objects st) (queue_of st SN).
Proof. intros HI i j li lj ci cj. apply (inv_sorted st HI SN). Qed.


(** [findIndex] finds the command that has the id, wherever it is. *)
Lemma findIndex_unique h arr v l c :
  ids_sorted h arr → l ∈ arr → h !! l = Some c →
  Js.strict_eq (id c) v = true →
  ∃ idx, findIndex h v arr = Some (idx, l).
Proof.
  intros Hs Hl Hc Hv.
  assert (has_id h v l) as Hid by (unfold has_id; by rewrite Hc; simpl; f_equal).
  destruct (list_find_elem_of (has_id h v) arr l Hl Hid) as [[idx l'] Hf].
  exists idx. unfold findIndex. rewrite Hf. do 2 f_equal.
  apply list_find_Some in Hf as (Hidx & Hid' & _).
  apply list_elem_of_lookup in Hl as [i Hi].
  unfold has_id in Hid'. destruct (h !! l') as [c'|] eqn:Hc'; [|done].
  injection Hid' as Hv'.
  pose proof (strict_eq_inj _ _ _ Hv Hv') as Heq.
  destruct (Nat.lt_total i idx) as [Hlt|[ -> |Hlt]].
  - pose proof (Hs i idx l l' c c' Hi Hidx Hlt Hc Hc'). lia.
  - by simplify_eq.
  - pose proof (Hs idx i l' l c' c Hidx Hi Hlt Hc' Hc). lia.
Qed.







End Matching.

(** ** What an acknowledgment does to the store *)

Section Acked.
Implicit Types (st : Store) (SN now : string) (v : Js.Number).


Lemma devicecmd_eq SN info now st :
  SN ≠ "" → info ≠ "" →
  devicecmd (Some SN) (Some info) now st
  = let s := foldl (ack_line SN now)
               (mkAckLoop (objects st) (queue_of st SN) [LogAckFrom SN info])
               (info_lines info) in
    mkOutcome (loop_store SN st s) (Text "OK") (loop_console s).
Proof.
  intros HSN Hinfo. unfold devicecmd, Js.falsy. simpl.
  by rewrite !bool_decide_eq_false_2.
Qed.

Lemma devicecmd_response qSN qinfo now st :
  response (devicecmd qSN qinfo now st) = Text "OK".
Proof. unfold devicecmd. by destruct (_ || _). Qed.

Lemma info_lines_not_nil info : info_lines info ≠ [] → info ≠ "".
Proof. intros Hne ->. by apply Hne. Qed.

End Acked.


Section Idempotence.
Implicit Types (st : Store) (SN now info : string).

(** The two ways a batch request is handled: it is answered at once, or its
    lines are processed. *)
Lemma devicecmd_cases qSN qinfo :
  ((∀ now st, devicecmd qSN qinfo now st
      = mkOutcome st (Text "OK")
          [LogAckFrom (default "" qSN) (default "" qinfo)])
   ∧ (Js.missing qSN = true ∨ info_lines (default "" qinfo) = []))
  ∨ (∃ SN info, qSN = Some SN ∧ qinfo = Some info ∧ SN ≠ "" ∧ info ≠ "").
Proof.
  destruct qSN as [SN|]; [|left; split; [by destruct qinfo|by left]].
  destruct (decide (SN = "")) as [->|HSN]; [left; split; [done|by left]|].
  destruct qinfo as [info|].
  - destruct (decide (info = "")) as [->|Hinfo].
    + left. split; [|by right]. intros now st. unfold devicecmd. simpl.
      by rewrite orb_true_r.
    + right. by exists SN, info.
  - left. split; [|by right]. intros now st. unfold devicecmd. simpl.
    by rewrite orb_true_r.
Qed.








End Idempotence.



(** ** Missing fields of the structured form *)

(** C3, as stated, fails: a structured acknowledgment whose return code is
    missing is processed.  It marks command 1 of A1 done, with [deviceAck]
    [ERR], and removes it from the queue. *)
Lemma missing_return_code_is_processed :
  let o := devicecmd_aspx form_without_Return "t1" one_queued in
  body_Return form_without_Return = None
  ∧ queue_of one_queued "A1" = [0]
  ∧ queue_of (store o) "A1" = []
  ∧ snapshot (store o) 0
    = Some (mkCommand 1 "CHECK" done "t0" None (Some "t1") (Some "ERR"))
  ∧ store o ≠ one_queued.
Proof.
  split_and!; [by vm_compute..|].
  intros E. apply (f_equal (λ st, queue_of st "A1")) in E.
  by vm_compute in E.
Qed.

(** C3, amended: a structured acknowledgment in which the device identifier
    (in the query string and in the body), the command id or the command
    text is missing or empty is answered [OK] and changes nothing, as an
    acknowledgment of an id that is not in the queue.  The return code is
    not among the fields that are tested: a request without it is handled
    as the same request with a return code other than [0]. *)
Theorem incomplete_form_is_ignored (f : AckForm) (now : string) (st : Store) :
  ((Js.missing (query_SN f) = true ∧ Js.missing (body_SN f) = true)
   ∨ Js.missing (body_ID f) = true ∨ Js.missing (body_CMD f) = true →
   response (devicecmd_aspx f now st) = Text "OK"
   ∧ store (devicecmd_aspx f now st) = st
   ∧ console (devicecmd_aspx f now st) = [])
  ∧ (∀ Return, Return ≠ "0" →
       store (devicecmd_aspx (with_Return f None) now st)
       = store (devicecmd_aspx (with_Return f (Some Return)) now st)
       ∧ response (devicecmd_aspx (with_Return f None) now st)
         = response (devicecmd_aspx (with_Return f (Some Return)) now st)).
Proof.
  split.
  - intros Hm.
    assert (form_incomplete f = true) as Hf.
    { unfold form_incomplete, form_SN, or_field.
      destruct Hm as [[H1 H2]|[H|H]].
      - by rewrite H1, H2.
      - by rewrite H, orb_true_r.
      - by rewrite H, orb_true_r. }
    by rewrite devicecmd_aspx_incomplete.
  - intros Return HR.
    assert (form_ack (with_Return f None)
            = form_ack (with_Return f (Some Return))) as Hack.
    { unfold form_ack. simpl. repeat case_decide; by simplify_eq. }
    destruct (form_incomplete f) eqn:Hf.
    + by rewrite !devicecmd_aspx_incomplete.
    + destruct (findIndex (objects st) (form_id f) (queue_of st (form_SN f)))
        as [[idx l]|] eqn:Hfind.
      * rewrite !(devicecmd_aspx_found _ now st idx l) by done.
        simpl. by rewrite Hack.
      * by rewrite !devicecmd_aspx_unknown.
Qed.

(** ** What [queueCommand] returns *)

Lemma queue_command_eq (sn text now : string) (st : Store) :
  sn ≠ "" → text ≠ "" →
  queue_command (Some (JString sn)) (Some (JString text)) now st
  = queued (queueCommand sn text now st)
      [LogBody (Some (JString sn)) (Some (JString text))].
Proof.
  intros Hsn Htext. unfold queue_command, missing_value, falsy_value, Js.falsy.
  by rewrite !bool_decide_eq_false_2.
Qed.

(** C2, as stated, fails: [queueCommand] returns the object that it has put
    into the queue, and an assignment to a property of the returned object
    shows in the queue. *)
Lemma queueCommand_returns_the_stored_object :
  let '(st1, l, _) := queueCommand "A1" "CHECK" "t0" init in
  let st2 := assign l (set_done "t1" "x") st1 in
  snapshot st1 <$> queue_of st1 "A1"
  = [Some (mkCommand 1 "CHECK" pending "t0" None None None)]
  ∧ snapshot st2 <$> queue_of st2 "A1"
    = [Some (mkCommand 1 "CHECK" done "t0" None (Some "t1") (Some "x"))]
  ∧ snapshot st2 <$> queue_of st2 "A1" ≠ snapshot st1 <$> queue_of st1 "A1".
Proof. by vm_compute. Qed.

(** C2, amended: [queueCommand] returns the created command object itself,
    which is the last element of the queue of the device; what is assigned
    to the returned object is assigned to the command of the queue.  The
    handler of [/queue-command] assigns nothing to it: it puts the values of
    its properties into the response, and the store is the one that
    [queueCommand] left. *)
Theorem queueCommand_returns_reference (st : Store) (sn text now : string) :
  let r := queueCommand sn text now st in
  let st1 := r.1.1 in
  let l := r.1.2 in
  queue_of st1 sn = queue_of st sn ++ [l]
  ∧ snapshot st1 l = Some (new_command st sn text now)
  ∧ (∀ g, snapshot (assign l g st1) l = Some (g (new_command st sn text now))
          ∧ queue_of (assign l g st1) sn = queue_of st sn ++ [l])
  ∧ (sn ≠ "" → text ≠ "" →
     response (queue_command (Some (JString sn)) (Some (JString text)) now st)
     = Queued (Some (new_command st sn text now))
     ∧ store (queue_command (Some (JString sn)) (Some (JString text)) now st)
       = st1).
Proof.
  cbv zeta. rewrite queueCommand_store. simpl.
  assert (∀ (h : list Command) c, (h ++ [c]) !! length h = Some c) as Hlast.
  { intros h c. by rewrite lookup_app_r, Nat.sub_diag. }
  unfold queue_of at 1, snapshot, assign. simpl.
  rewrite lookup_insert_eq. split_and!.
  - done.
  - by rewrite Hlast.
  - intros g. split.
    + by rewrite list_lookup_alter_eq, Hlast.
    + unfold queue_of at 1. simpl. by rewrite lookup_insert_eq.
  - intros Hsn Htext. rewrite queue_command_eq, queueCommand_store by done.
    unfold queued, snapshot. simpl. by rewrite Hlast.
Qed.

(** ** The theorems at concrete requests *)

(** The return code 0 for command 1 of A1. *)
Lemma return_code_maps_to_ack_witness :
  ∃ c', objects (store (devicecmd_aspx form_ok "t2" one_queued)) !! 0 = Some c'
        ∧ status c' = done
        ∧ deviceAck c' =
            Some (if decide (body_Return form_ok = Some "0") then "OK" else "ERR").
Proof.
  apply (return_code_maps_to_ack form_ok "t2" one_queued 0 0
           (mkCommand 1 "CHECK" pending "t0" None None None));
    vm_compute; reflexivity.
Defined.


(** An acknowledgment without a command id. *)
Lemma incomplete_form_is_ignored_witness :
  response (devicecmd_aspx form_without_ID "t2" one_queued) = Text "OK"
  ∧ store (devicecmd_aspx form_without_ID "t2" one_queued) = one_queued
  ∧ console (devicecmd_aspx form_without_ID "t2" one_queued) = [].
Proof.
  destruct (incomplete_form_is_ignored form_without_ID "t2" one_queued)
    as [Hignored _].
  apply Hignored. right. left. reflexivity.
Defined.



(** The response of the first [/queue-command] for A1. *)
Lemma queueCommand_returns_reference_witness :
  response (queue_command (Some (JString "A1")) (Some (JString "CHECK")) "t0" init)
  = Queued (Some (mkCommand 1 "CHECK" pending "t0" None None None))
  ∧ queue_of (store (queue_command (Some (JString "A1")) (Some (JString "CHECK")) "t0" init)) "A1"
    = [0].
Proof.
  destruct (queueCommand_returns_reference init "A1" "CHECK" "t0")
    as (Hq & _ & _ & Hhandler).
  destruct Hhandler as [Hr Hs]; [discriminate..|].
  split; [exact Hr|]. rewrite Hs. exact Hq.
Defined.



(** The scenario of the specification, request by request: command 1 is
    queued for A1, a poll delivers it, the queue shows it as sent, the
    acknowledgment is answered [OK], and the queue is empty. *)
Example scenario_of_the_specification :
  let o1 := queue_command (Some (JString "A1")) (Some (JString "CHECK")) "t0" init in
  let o2 := getrequest (Some "A1") "t1" (store o1) in
  let o3 := commands "A1" (store o2) in
  let o4 := devicecmd (Some "A1") (Some "C:1:OK") "t2" (store o3) in
  let o5 := commands "A1" (store o4) in
  response o1 = Queued (Some (mkCommand 1 "CHECK" pending "t0" None None None))
  ∧ response o2 = Text ("C:1:CHECK" +:+ String Js.LF "")
  ∧ response o3
    = CommandList "A1" [Some (mkCommand 1 "CHECK" sent "t0" (Some "t1") None None)]
  ∧ response o4 = Text "OK"
  ∧ response o5 = CommandList "A1" []
  ∧ store o4 = run scenario init.
Proof. by vm_compute. Qed.

(** * Further properties of the queue *)

(** ** What a request can do *)

Section Steps.
Implicit Types (st : Store) (sn SN now : string) (r : Request).

Lemma missing_false (f : option string) :
  Js.missing f = false → ∃ s, f = Some s ∧ s ≠ "".
Proof.
  destruct f as [s|]; [|done]. simpl. intros H%bool_decide_eq_false.
  by exists s.
Qed.

Lemma missing_value_false (f : option JsValue) :
  missing_value f = false → ∃ v, f = Some v ∧ falsy_value v = false.
Proof. destruct f as [v|]; [|done]. intros H. by exists v. Qed.

Lemma getrequest_poll_store qSN now st :
  store (getrequest qSN now st)
  = if decide (default "" qSN = "" ∨ pendingFor st (default "" qSN) = [])
    then st else poll_store (default "" qSN) now st.
Proof. apply getrequest_store. Qed.

(** The store after a request is the store before it, changed in one of the
    four ways of [Step], for the device of the request. *)
Lemma handle_Step now r st :
  Inv st → Step (device_of r) st (store (handle now r st)).
Proof.
  intros HI. destruct r as [SN c|SN|SN|SN|SN info|f|sn]; cbn [handle device_of].
  - unfold queue_command. destruct (missing_value SN) eqn:E; [constructor|].
    destruct (missing_value c); [constructor|]. cbn [orb].
    apply missing_value_false in E as (v & -> & _).
    rewrite store_queued. constructor.
  - unfold request_users. destruct (missing_value SN) eqn:E; [constructor|].
    apply missing_value_false in E as (v & -> & _).
    rewrite store_queued. constructor.
  - unfold request_attendance. destruct (missing_value SN) eqn:E; [constructor|].
    apply missing_value_false in E as (v & -> & _).
    rewrite store_queued. constructor.
  - rewrite getrequest_poll_store. case_decide as Hc; [constructor|].
    apply step_poll. intros E. apply Hc. by left.
  - destruct (devicecmd_cases SN info)
      as [[E _]|(s & i & -> & -> & Hs & Hi)].
    + rewrite E. constructor.
    + apply step_ack; [done|].
      apply (devicecmd_rtc (Some s) (Some i)), (inv_nonempty st HI).
  - destruct (form_incomplete f) eqn:E.
    + rewrite devicecmd_aspx_incomplete by done. constructor.
    + assert (form_SN f ≠ "") as Hs.
      { unfold form_incomplete in E.
        destruct (Js.falsy (form_SN f)) eqn:E'; [done|].
        by apply bool_decide_eq_false in E'. }
      destruct (findIndex (objects st) (form_id f) (queue_of st (form_SN f)))
        as [[idx l]|] eqn:Hf.
      * rewrite (devicecmd_aspx_found f now st idx l) by done.
        apply step_ack; [done|]. apply rtc_once.
        by exists (form_id f), idx, l, now, (form_ack f).
      * rewrite devicecmd_aspx_unknown by done. constructor.
  - constructor.
Qed.

(** A request that is no poll and no acknowledgment for [sn] does nothing
    or queues a command, or is addressed to another device. *)
Lemma handle_Step_quiet now r st sn :
  Inv st → disturbs sn r = false →
  let st' := store (handle now r st) in
  st' = st
  ∨ (∃ sn' text, st' = (queueCommand sn' text now st).1.1)
  ∨ (device_of r ≠ sn ∧ Step (device_of r) st st').
Proof.
  intros HI Hd. pose proof (handle_Step now r st HI) as HS.
  destruct r as [SN c|SN|SN|SN|SN info|f|sn0]; cbn [handle device_of disturbs] in *.
  - unfold queue_command. destruct (missing_value SN) eqn:E; [by left|].
    destruct (missing_value c); [by left|]. cbn [orb].
    right. left. eexists _, _. by rewrite store_queued.
  - unfold request_users. destruct (missing_value SN) eqn:E; [by left|].
    right. left. eexists _, _. by rewrite store_queued.
  - unfold request_attendance. destruct (missing_value SN) eqn:E; [by left|].
    right. left. eexists _, _. by rewrite store_queued.
  - apply bool_decide_eq_false in Hd. by right; right.
  - apply bool_decide_eq_false in Hd. by right; right.
  - apply bool_decide_eq_false in Hd. by right; right.
  - by left.
Qed.

End Steps.

(** ** Devices do not disturb each other *)

Section Frame.
Implicit Types (st : Store) (sn dev now : string) (l : loc).

Lemma frame_queueCommand dev text now st sn l c :
  l ∈ queue_of st sn → objects st !! l = Some c →
  let st' := (queueCommand dev text now st).1.1 in
  l ∈ queue_of st' sn ∧ objects st' !! l = Some c.
Proof.
  intros Hl Hc. cbv zeta. rewrite queue_of_queueCommand, queueCommand_store.
  simpl. split.
  - case_decide; [subst; apply elem_of_app; by left|done].
  - apply lookup_app_l_Some, Hc.
Qed.

Lemma frame_ack_rel dev st st' sn l :
  Inv st → ack_rel dev st st' → dev ≠ sn → l ∈ queue_of st sn →
  queue_of st' sn = queue_of st sn ∧ objects st' !! l = objects st !! l
  ∧ deviceSeq st' = deviceSeq st.
Proof.
  intros HI (v & idx & l0 & now & ack & Hf & ->) Hne Hl.
  apply list_find_Some in Hf as (Hidx & _ & _).
  rewrite queue_of_ack_store, decide_False by done. simpl.
  split_and!; [done| |done].
  apply list_lookup_alter_ne. intros ->.
  apply Hne, (inv_owner st HI dev sn l); [|done].
  by eapply list_elem_of_lookup_2.
Qed.

Lemma frame_ack_rtc dev st st' sn :
  Inv st → rtc (ack_rel dev) st st' → dev ≠ sn →
  queue_of st' sn = queue_of st sn
  ∧ (∀ l, l ∈ queue_of st sn → objects st' !! l = objects st !! l)
  ∧ deviceSeq st' = deviceSeq st.
Proof.
  intros HI R Hne. induction R as [st|st1 st2 st3 R1 R IH]; [done|].
  assert (Inv st2) as HI2 by by eapply Inv_ack_rel.
  destruct (IH HI2) as (Hq & Ho & Hs).
  assert (queue_of st2 sn = queue_of st1 sn ∧ deviceSeq st2 = deviceSeq st1)
    as [Hq2 Hs2].
  { destruct R1 as (v & idx & l0 & now & ack & _ & ->).
    by rewrite queue_of_ack_store, decide_False by done. }
  split_and!.
  - by rewrite Hq, Hq2.
  - intros l Hl. rewrite Ho by by rewrite Hq2.
    by destruct (frame_ack_rel dev st1 st2 sn l HI R1 Hne Hl) as (_ & -> & _).
  - by rewrite Hs, Hs2.
Qed.

(** A request for the device [dev] leaves the queue, the counter and the
    queued command objects of every other device as they are. *)
Lemma Step_frame dev st st' sn :
  Inv st → Step dev st st' → dev ≠ sn →
  queue_of st' sn = queue_of st sn
  ∧ last_id st' sn = last_id st sn
  ∧ (∀ l, l ∈ queue_of st sn → objects st' !! l = objects st !! l).
Proof.
  intros HI HS Hne. inversion HS as [|text now Hdev|now Hdev|st2 Hdev R]; subst.
  - done.
  - rewrite queue_of_queueCommand, last_id_queueCommand.
    rewrite !decide_False by done. split_and!; [done..|].
    intros l Hl. rewrite queueCommand_store. simpl.
    destruct (inv_live st HI sn l Hl) as (c & Hc & _).
    rewrite Hc. by apply lookup_app_l_Some.
  - split_and!; [done..|]. intros l Hl. simpl.
    rewrite lookup_mark_sent, decide_False; [done|].
    intros [_ Hin]%list_elem_of_filter.
    by apply Hne, (inv_owner st HI dev sn l).
  - destruct (frame_ack_rtc dev st st' sn HI R Hne) as (Hq & Ho & Hs).
    split_and!; [done| |done]. unfold last_id. by rewrite Hs.
Qed.

(** A command of the queue of [sn] stays where and what it is through a
    request that is no poll and no acknowledgment for [sn]. *)
Lemma frame_handle now r st sn l c :
  Inv st → disturbs sn r = false →
  l ∈ queue_of st sn → objects st !! l = Some c →
  let st' := store (handle now r st) in
  l ∈ queue_of st' sn ∧ objects st' !! l = Some c.
Proof.
  intros HI Hd Hl Hc.
  destruct (handle_Step_quiet now r st sn HI Hd)
    as [->|[(sn' & text & ->)|[Hne HS]]]; [done| |].
  - by apply frame_queueCommand.
  - destruct (Step_frame _ st _ sn HI HS Hne) as (Hq & _ & Ho).
    cbv zeta. by rewrite Hq, Ho.
Qed.

End Frame.

(** X1: on a store that the server reaches, a command of the queue of [sn]
    stays in that queue, with all its properties as they are (a pending
    command stays pending), through every sequence of requests none of which
    is a poll or an acknowledgment for [sn]: whatever is queued, polled or
    acknowledged for other devices, and whatever is queued for [sn]. *)
Theorem queued_command_is_kept (rs0 rs : list (string * Request))
    (sn : string) (l : loc) (c : Command) :
  let st := run rs0 init in
  l ∈ queue_of st sn → objects st !! l = Some c →
  Forall (λ nr, disturbs sn nr.2 = false) rs →
  l ∈ queue_of (run rs st) sn ∧ objects (run rs st) !! l = Some c.
Proof.
  intros st Hl Hc Hrs.
  induction rs as [|[now r] rs IH] using rev_ind; [done|].
  apply Forall_app in Hrs as [Hrs Hr]. apply Forall_inv in Hr.
  destruct (IH Hrs) as [Hl' Hc'].
  rewrite run_snoc. apply frame_handle; [|exact Hr|exact Hl'|exact Hc'].
  apply Inv_run, Inv_reachable.
Qed.

(** X2: on a store that the server reaches, a request addressed to one
    device changes nothing of another device [sn]: what [/commands/sn]
    shows and the last id of [sn] are the same before and after. *)
Theorem other_devices_are_untouched (rs : list (string * Request))
    (now : string) (r : Request) (sn : string) :
  let st := run rs init in
  device_of r ≠ sn →
  response (commands sn (store (handle now r st))) = response (commands sn st)
  ∧ last_id (store (handle now r st)) sn = last_id st sn.
Proof.
  intros st Hne. assert (Inv st) as HI by apply Inv_reachable.
  destruct (Step_frame _ st _ sn HI (handle_Step now r st HI) Hne)
    as (Hq & Hs & Ho).
  split; [|done]. unfold commands. simpl. rewrite Hq. f_equal.
  apply list_fmap_ext. intros i l Hi. apply Ho.
  by eapply list_elem_of_lookup_2.
Qed.

(** ** What a request can do to the heap and to the queues *)

Section Heap.
Implicit Types (st : Store) (h : list Command) (s : AckLoop).
Implicit Types (sn SN now : string) (r : Request).

Lemma ack_lines_done SN now lines s :
  rtc done_rel (loop_objects s) (loop_objects (foldl (ack_line SN now) s lines))
  ∧ loop_arr (foldl (ack_line SN now) s lines) `sublist_of` loop_arr s.
Proof.
  revert s. induction lines as [|line lines IH]; intros s; [done|].
  simpl. destruct (IH (ack_line SN now s line)) as [IHh IHa].
  destruct (ack_line_cases SN now s line)
    as [[Hh Ha]|(v & idx & l & ack & _ & Hh & Ha)].
  - rewrite Hh in IHh. by rewrite Ha in IHa.
  - rewrite Hh in IHh. rewrite Ha in IHa. split.
    + eapply rtc_l; [|done]. by exists l, now, ack.
    + etrans; [done|]. apply sublist_delete.
Qed.

(** An enqueue route that accepts its request calls [queueCommand]. *)
Lemma handle_enqueue now r st text :
  enqueued_text r = Some text →
  ∃ log0, handle now r st
          = queued (queueCommand (device_of r) text now st) log0.
Proof.
  destruct r as [SN c|SN|SN|SN|SN info|f|sn0]; cbn [enqueued_text]; try done.
  - destruct (missing_value SN) eqn:E; [done|].
    destruct (missing_value c) eqn:E'; [done|]. cbn [orb].
    pose proof E as (v & -> & _)%missing_value_false.
    pose proof E' as (w & -> & _)%missing_value_false. intros [= <-].
    eexists. cbn [handle]. unfold queue_command. by rewrite E, E'.
  - destruct (missing_value SN) eqn:E; [done|]. intros [= <-].
    pose proof E as (v & -> & _)%missing_value_false.
    eexists. cbn [handle]. unfold request_users. by rewrite E.
  - destruct (missing_value SN) eqn:E; [done|]. intros [= <-].
    pose proof E as (v & -> & _)%missing_value_false.
    eexists. cbn [handle]. unfold request_attendance. by rewrite E.
Qed.

(** Any other request leaves the counters alone, the heap at its size, and
    takes commands out of queues at most. *)
Lemma handle_not_enqueue now r st :
  enqueued_text r = None →
  let st' := store (handle now r st) in
  length (objects st') = length (objects st)
  ∧ deviceSeq st' = deviceSeq st
  ∧ (∀ sn, queue_of st' sn `sublist_of` queue_of st sn)
  ∧ (disturbs (device_of r) r = false → st' = st)
  ∧ (∀ c, response (handle now r st) ≠ Queued c).
Proof.
  destruct r as [SN c|SN|SN|SN|SN info|f|sn0];
    cbn [enqueued_text handle disturbs device_of].
  - intros E. unfold queue_command.
    destruct (missing_value SN) eqn:E1; [done|].
    destruct (missing_value c) eqn:E2; [done|].
    cbn [orb] in E. by destruct c.
  - intros E. unfold request_users. by destruct (missing_value SN).
  - intros E. unfold request_attendance. by destruct (missing_value SN).
  - intros _. rewrite getrequest_poll_store.
    split_and!.
    + case_decide; [done|]. simpl. clear.
      unfold mark_sent. generalize (objects st).
      induction (pendingFor st (default "" SN)) as [|l pend IH];
        intros h; [done|].
      simpl. by rewrite IH, length_alter.
    + by case_decide.
    + intros sn. by case_decide.
    + by rewrite bool_decide_eq_true_2.
    + intros c. unfold getrequest. destruct (Js.falsy _); [done|].
      by case_decide.
  - intros _. split_and!.
    + destruct (devicecmd_store SN info now st)
        as [->|(s & i & log & _ & _ & _ & _ & ->)]; [done|]. simpl.
      destruct (ack_lines_done s now (info_lines i)
                  (mkAckLoop (objects st) (queue_of st s) log)) as [R _].
      simpl in R. induction R as [|h1 h2 h3 (l & n & a & ->) _ IH]; [done|].
      by rewrite IH, length_alter.
    + apply deviceSeq_devicecmd.
    + intros sn. destruct (devicecmd_store SN info now st)
        as [->|(s & i & log & _ & _ & _ & _ & ->)]; [done|].
      rewrite queue_of_loop_store. case_decide; [subst|done].
      apply (ack_lines_done s now (info_lines i)
               (mkAckLoop (objects st) (queue_of st s) log)).
    + by rewrite bool_decide_eq_true_2.
    + intros c. by rewrite devicecmd_response.
  - intros _. split_and!.
    + destruct (devicecmd_aspx_store f now st)
        as [->|(s & _ & v & idx & l & n & a & _ & ->)]; [done|].
      simpl. by rewrite length_alter.
    + apply deviceSeq_devicecmd_aspx.
    + intros sn. destruct (devicecmd_aspx_store f now st)
        as [->|(s & _ & v & idx & l & n & a & _ & ->)]; [done|].
      rewrite queue_of_ack_store. case_decide; [subst|done].
      apply sublist_delete.
    + by rewrite bool_decide_eq_true_2.
    + intros c. by rewrite devicecmd_aspx_response.
  - done.
Qed.

End Heap.

(** ** The life of a command object *)

Section Life.
Implicit Types (st : Store) (h : list Command) (c : Command) (l : loc).

(** The heap after a request. *)
Lemma handle_HeapStep now r st :
  HeapStep (objects st) (objects (store (handle now r st))).
Proof.
  destruct (enqueued_text r) as [text|] eqn:E.
  { destruct (handle_enqueue now r st text E) as (log0 & ->).
    rewrite store_queued, queueCommand_store. simpl. constructor. }
  destruct (disturbs (device_of r) r) eqn:Hd.
  2:{ destruct (handle_not_enqueue now r st E) as (_ & _ & _ & Hst & _).
      rewrite Hst by done. constructor. }
  destruct r as [SN c|SN|SN|SN|SN info|f|sn0]; try done; cbn [handle].
  - rewrite getrequest_poll_store. case_decide; [constructor|].
    apply heap_sent, Forall_pendingFor.
  - destruct (devicecmd_store SN info now st)
      as [->|(s & i & log & _ & _ & _ & _ & ->)]; [constructor|].
    apply heap_done.
    apply (ack_lines_done s now (info_lines i)
             (mkAckLoop (objects st) (queue_of st s) log)).
  - destruct (devicecmd_aspx_store f now st)
      as [->|(s & _ & v & idx & l & n & a & _ & ->)]; [constructor|].
    apply heap_done, rtc_once. by exists l, n, a.
Qed.

Lemma grown_refl h : grown h h.
Proof. intros l c Hc. by exists c. Qed.

Lemma grown_trans h1 h2 h3 : grown h1 h2 → grown h2 h3 → grown h1 h3.
Proof.
  intros H12 H23 l c Hc.
  destruct (H12 l c Hc) as (c2 & Hc2 & Hi & Hcm & Hq & Hr).
  destruct (H23 l c2 Hc2) as (c3 & Hc3 & Hi' & Hcm' & Hq' & Hr').
  exists c3. split_and!; [done|congruence..|lia].
Qed.

Lemma grown_HeapStep h h' : HeapStep h h' → grown h h'.
Proof.
  intros [|n text now|now pend Hpend|h2 R].
  - apply grown_refl.
  - intros l c Hc. exists c. split_and!; [|done..].
    by apply lookup_app_l_Some.
  - intros l c Hc. rewrite lookup_mark_sent, Hc.
    case_decide as Hin; [|by exists c].
    eexists. split_and!; [done..|]. simpl.
    eapply Forall_forall in Hpend; [|done].
    unfold is_pending in Hpend. rewrite Hc in Hpend.
    injection Hpend as ->. simpl. lia.
  - induction R as [|h1 h2 h3 (l0 & now & ack & ->) _ IH]; [apply grown_refl|].
    eapply grown_trans; [|done]. intros l c Hc.
    destruct (decide (l0 = l)) as [->|Hne].
    + rewrite list_lookup_alter_eq, Hc. eexists. split_and!; [done..|].
      simpl. destruct (status c); simpl; lia.
    + rewrite list_lookup_alter_ne by done. by exists c.
Qed.

Lemma grown_run rs st : grown (objects st) (objects (run rs st)).
Proof.
  induction rs as [|[now r] rs IH] using rev_ind; [apply grown_refl|].
  rewrite run_snoc. eapply grown_trans; [done|].
  apply grown_HeapStep, handle_HeapStep.
Qed.

Lemma coherent_HeapStep h h' :
  HeapStep h h' → Forall coherent h → Forall coherent h'.
Proof.
  intros [|n text now|now pend Hpend|h2 R] Hh.
  - done.
  - apply Forall_app. split; [done|]. by repeat constructor.
  - apply Forall_lookup. intros l c. rewrite lookup_mark_sent.
    case_decide as Hin.
    + eapply Forall_forall in Hpend; [|done]. unfold is_pending in Hpend.
      destruct (h !! l) as [c0|] eqn:Hc0; [|done]. injection Hpend as Hs.
      intros [= <-]. eapply Forall_lookup in Hh; [|done].
      unfold coherent in *. rewrite Hs in Hh. simpl.
      destruct Hh as (_ & ? & ?). by split_and!.
    + intros Hc. by eapply Forall_lookup in Hh.
  - induction R as [|h1 h2 h3 (l0 & now & ack & ->) _ IH]; [done|].
    apply IH. apply Forall_lookup. intros l c.
    destruct (decide (l0 = l)) as [->|Hne].
    + rewrite list_lookup_alter_eq. destruct (h1 !! l); [|done].
      intros [= <-]. unfold coherent. simpl. by split.
    + rewrite list_lookup_alter_ne by done. intros Hc.
      by eapply Forall_lookup in Hh.
Qed.

End Life.

(** X3: a command object is never lost and never rewritten: through every
    sequence of requests, from any store, it stays at its place in the heap
    with its id, its text and its time of creation, and its status only
    moves forward (pending, sent, done).  So a command that is sent or done
    is never again among the commands that a poll delivers. *)
Theorem command_never_goes_back (st : Store) (rs : list (string * Request))
    (l : loc) (c : Command) :
  objects st !! l = Some c →
  ∃ c', objects (run rs st) !! l = Some c'
        ∧ id c' = id c ∧ command c' = command c ∧ queuedAt c' = queuedAt c
        ∧ (rank (status c) ≤ rank (status c'))%nat
        ∧ (status c ≠ pending → ∀ sn, l ∉ pendingFor (run rs st) sn).
Proof.
  intros Hc. destruct (grown_run rs st l c Hc) as (c' & Hc' & Hi & Hcm & Hq & Hr).
  exists c'. split_and!; [done..|].
  intros Hs sn [Hp _]%list_elem_of_filter.
  unfold is_pending in Hp. rewrite Hc' in Hp. injection Hp as Hp.
  rewrite Hp in Hr. destruct (status c); simpl in Hr; [done|lia..].
Qed.

(** X4: on every store that the server reaches, the time stamps of each
    command object fit its status: a pending command has no [sentAt], no
    [doneAt] and no [deviceAck]; a sent one has a [sentAt] and neither of
    the others; a done one has a [doneAt] and a [deviceAck]. *)
Theorem timestamps_fit_status (rs : list (string * Request)) :
  Forall coherent (objects (run rs init)).
Proof.
  induction rs as [|[now r] rs IH] using rev_ind; [constructor|].
  rewrite run_snoc. eapply coherent_HeapStep; [|done].
  apply handle_HeapStep.
Qed.

(** ** Who adds commands *)


(** X6: a request that is not an accepted enqueue adds no command: the heap
    keeps its size, every counter keeps its value, and the queue of every
    device after the request is the queue before it with some commands
    taken out, the others in their order. *)
Theorem only_accepted_enqueues_add (now : string) (r : Request) (st : Store) :
  enqueued_text r = None →
  let st' := store (handle now r st) in
  length (objects st') = length (objects st)
  ∧ deviceSeq st' = deviceSeq st
  ∧ (∀ sn, queue_of st' sn `sublist_of` queue_of st sn).
Proof.
  intros E. destruct (handle_not_enqueue now r st E) as (H1 & H2 & H3 & _).
  done.
Qed.

(** ** The ids of a device have no gaps *)

Section Consecutive.
Implicit Types (st : Store) (sn now : string) (r : Request).

Lemma last_id_handle_count now r st sn :
  last_id (store (handle now r st)) sn
  = (last_id st sn + N.of_nat (count_enqueues sn [(now, r)]))%N.
Proof.
  unfold count_enqueues. rewrite filter_cons, filter_nil. simpl.
  destruct (enqueued_text r) as [text|] eqn:E.
  - destruct (handle_enqueue now r st text E) as (log0 & ->).
    rewrite store_queued, last_id_queueCommand.
    case_decide as Hsn.
    + subst sn. rewrite decide_True by (split; [by eexists|done]). simpl. lia.
    + rewrite decide_False by (intros [_ ?]; done). simpl. lia.
  - rewrite decide_False by (intros [[? [=]] _]).
    destruct (handle_not_enqueue now r st E) as (_ & Hs & _).
    unfold last_id. rewrite Hs. simpl. lia.
Qed.

Lemma last_id_run_count rs st sn :
  last_id (run rs st) sn = (last_id st sn + N.of_nat (count_enqueues sn rs))%N.
Proof.
  induction rs as [|[now r] rs IH] using rev_ind.
  - unfold count_enqueues. simpl. lia.
  - rewrite run_snoc, last_id_handle_count, IH.
    unfold count_enqueues. rewrite filter_app, length_app. lia.
Qed.

End Consecutive.

(** X7: the ids of a device have no gaps: after any sequence of requests
    since the start of the server, the counter of a device is the number of
    commands that have been queued for it, and the command that is queued
    next for it gets that number plus one, whatever has been polled,
    acknowledged or queued for other devices in between. *)
Theorem ids_are_consecutive (rs : list (string * Request)) (sn : string) :
  last_id (run rs init) sn = N.of_nat (count_enqueues sn rs)
  ∧ (∀ now r text,
       enqueued_text r = Some text → device_of r = sn →
       ∃ c, response (handle now r (run rs init)) = Queued (Some c)
            ∧ id c = (N.of_nat (count_enqueues sn rs) + 1)%N
            ∧ command c = text ∧ status c = pending).
Proof.
  assert (last_id (run rs init) sn = N.of_nat (count_enqueues sn rs)) as Hlast.
  { rewrite last_id_run_count. unfold last_id at 1. simpl.
    rewrite lookup_empty. simpl. lia. }
  split; [done|]. intros now r text E <-.
  destruct (handle_enqueue now r (run rs init) text E) as (log0 & ->).
  unfold queued, snapshot. rewrite queueCommand_store. simpl.
  rewrite lookup_app_r, Nat.sub_diag by done. simpl.
  eexists. split; [done|]. simpl. by rewrite <-Hlast.
Qed.

(** ** The shape of the queues *)

Section Shape.
Implicit Types (st : Store) (sn : string).

Lemma queue_commands_Forall2 st sn :
  Inv st →
  Forall2 (λ l c, objects st !! l = Some c) (queue_of st sn) (queue_commands st sn).
Proof.
  intros HI. unfold queue_commands.
  assert (Forall (λ l, is_Some (objects st !! l)) (queue_of st sn)) as Hlive.
  { apply Forall_forall. intros l Hl.
    destruct (inv_live st HI sn l Hl) as (c & Hc & _). by exists c. }
  induction Hlive as [|l q [c Hc] _ IH]; [constructor|].
  simpl. rewrite Hc. simpl. by constructor.
Qed.

(** A request that queues nothing leaves the queue of the empty SN and its
    command objects as they are: a poll or an acknowledgment for the empty
    SN is answered before the maps are read. *)
Lemma handle_empty_SN now r st :
  Inv st → enqueued_text r = None →
  let st' := store (handle now r st) in
  queue_of st' "" = queue_of st ""
  ∧ (∀ l, l ∈ queue_of st "" → objects st' !! l = objects st !! l).
Proof.
  intros HI E.
  destruct (decide (device_of r = "")) as [Hdev|Hne].
  - assert (store (handle now r st) = st) as Hst; [|cbv zeta; by rewrite Hst].
    destruct (handle_not_enqueue now r st E) as (_ & _ & _ & Hquiet & _).
    destruct r as [SN c|SN|SN|SN|SN info|f|sn0];
      cbn [handle device_of disturbs] in *; try by apply Hquiet.
    + rewrite getrequest_poll_store, decide_True; [done|by left].
    + destruct (devicecmd_cases SN info)
        as [[Ho _]|(s & i & -> & -> & Hs & _)]; [by rewrite Ho|done].
    + rewrite devicecmd_aspx_incomplete; [done|].
      unfold form_incomplete. by rewrite Hdev.
  - destruct (Step_frame (device_of r) st _ "" HI (handle_Step now r st HI) Hne)
      as (Hq & _ & Ho).
    by split.
Qed.

(** The commands of the queue of the empty SN are pending, and they are as
    many as the requests that queued one for it. *)
Lemma empty_SN_run rs :
  let st := run rs init in
  (∀ l, l ∈ queue_of st "" →
     ∃ c, objects st !! l = Some c ∧ status c = pending)
  ∧ length (queue_of st "") = count_enqueues "" rs.
Proof.
  induction rs as [|[now r] rs IH] using rev_ind; [split; [|done]|].
  { intros l Hl. by apply elem_of_nil in Hl. }
  cbv zeta in *. destruct IH as [Hpend Hlen].
  pose proof (Inv_reachable rs) as HI.
  rewrite run_snoc. unfold count_enqueues in *.
  rewrite filter_app, length_app, <-Hlen.
  destruct (enqueued_text r) as [text|] eqn:E.
  - destruct (handle_enqueue now r (run rs init) text E) as (log0 & ->).
    rewrite store_queued, queue_of_queueCommand.
    rewrite queueCommand_store. cbn [fst objects].
    case_decide as Hdev.
    + rewrite <-Hdev.
      rewrite filter_cons_True by (simpl; rewrite E, <-Hdev; by split).
      rewrite length_app. split; [|done].
      intros l [Hl| ->%list_elem_of_singleton]%elem_of_app.
      * destruct (Hpend l Hl) as (c & Hc & Hs). exists c.
        split; [by apply lookup_app_l_Some|done].
      * eexists. split; [by rewrite lookup_app_r, Nat.sub_diag|done].
    + rewrite filter_cons_False by (by intros [_ ?]). simpl.
      rewrite Nat.add_0_r. split; [|done].
      intros l Hl. destruct (Hpend l Hl) as (c & Hc & Hs). exists c.
      split; [by apply lookup_app_l_Some|done].
  - destruct (handle_empty_SN now r (run rs init) HI E) as [Hq Ho].
    rewrite Hq.
    rewrite filter_cons_False
      by (simpl; rewrite E; by intros [[]%is_Some_None _]).
    simpl. rewrite Nat.add_0_r. split; [|done].
    intros l Hl. rewrite Ho by done. by apply Hpend.
Qed.

(** An enqueue route that accepts a text as SN queues for that text, which
    is not empty. *)
Lemma text_SN_device r text :
  text_SN r → enqueued_text r = Some text → device_of r ≠ "".
Proof.
  unfold text_SN.
  destruct r as [SN c|SN|SN|SN|SN info|f|sn0];
    cbn [enqueued_text SN_field device_of]; try done;
    (destruct SN as [[| | |s|]|]; try done; simpl; unfold Js.falsy;
     case_bool_decide; done).
Qed.

End Shape.

(** X8: the shape of the queues on every store that the server reaches.
    The map holds no empty array (an acknowledgment that empties a queue
    deletes its entry); no command object is twice in a queue or in the
    queues of two devices; every entry of a queue is a command object; along
    a queue the ids strictly increase, and they lie between 1 and the last
    id of the device. *)
Theorem queues_are_well_formed (rs : list (string * Request)) (sn : string) :
  let st := run rs init in
  deviceCommands st !! sn ≠ Some []
  ∧ NoDup (queue_of st sn)
  ∧ (∀ sn' l, l ∈ queue_of st sn → l ∈ queue_of st sn' → sn' = sn)
  ∧ Forall2 (λ l c, objects st !! l = Some c)
      (queue_of st sn) (queue_commands st sn)
  ∧ StronglySorted N.lt (id <$> queue_commands st sn)
  ∧ Forall (λ c, 1 ≤ id c ≤ last_id st sn)%N (queue_commands st sn).
Proof.
  intros st. assert (Inv st) as HI by apply Inv_reachable.
  pose proof (queue_commands_Forall2 st sn HI) as HF.
  split_and!.
  - apply (inv_nonempty st HI).
  - by apply Inv_NoDup.
  - intros sn' l H1 H2. by apply (inv_owner st HI sn' sn l).
  - done.
  - apply StronglySorted_lookup. intros i j x y.
    rewrite !list_lookup_fmap.
    destruct (queue_commands st sn !! i) as [ci|] eqn:Hi; [|done].
    destruct (queue_commands st sn !! j) as [cj|] eqn:Hj; [|done].
    intros [= <-] [= <-] Hij.
    destruct (Forall2_lookup_r _ _ _ _ _ HF Hi) as (li & Hli & Hci).
    destruct (Forall2_lookup_r _ _ _ _ _ HF Hj) as (lj & Hlj & Hcj).
    by eapply (inv_sorted st HI sn i j).
  - apply Forall_forall. intros c [i Hi]%list_elem_of_lookup.
    destruct (Forall2_lookup_r _ _ _ _ _ HF Hi) as (l & Hl & Hc).
    destruct (inv_live st HI sn l) as (c' & Hc' & _ & Hid).
    { by eapply list_elem_of_lookup_2. }
    by simplify_eq.
Qed.

(** X9: the queue of the empty SN is never served.  A poll or an
    acknowledgment for the empty SN is answered before the maps are read, so
    on every store that the server reaches the commands of that queue are
    all pending, and they are as many as the accepted enqueues for it: none
    is ever delivered or removed.  Such a queue comes from an SN that is
    not a text but prints as the empty text (an empty array, say); when the
    SN of every enqueue is a text or is missing, the server has no queue and
    no counter for the empty SN. *)
Theorem empty_SN_queue_is_never_served (rs : list (string * Request)) :
  let st := run rs init in
  Forall (λ c, status c = pending) (queue_commands st "")
  ∧ length (queue_commands st "") = count_enqueues "" rs
  ∧ last_id st "" = N.of_nat (count_enqueues "" rs)
  ∧ (Forall (λ nr, text_SN nr.2) rs →
     deviceCommands st !! "" = None ∧ last_id st "" = 0%N).
Proof.
  intros st. assert (Inv st) as HI by apply Inv_reachable.
  destruct (empty_SN_run rs) as [Hpend Hlen]. fold st in Hpend, Hlen.
  pose proof (queue_commands_Forall2 st "" HI) as HF.
  assert (last_id st "" = N.of_nat (count_enqueues "" rs)) as Hlast.
  { unfold st. rewrite last_id_run_count. unfold last_id at 1. simpl.
    rewrite lookup_empty. simpl. lia. }
  split_and!; [| |done|].
  - apply Forall_forall. intros c [i Hi]%list_elem_of_lookup.
    destruct (Forall2_lookup_r _ _ _ _ _ HF Hi) as (l & Hl & Hc).
    destruct (Hpend l) as (c' & Hc' & Hs); [by eapply list_elem_of_lookup_2|].
    by simplify_eq.
  - by rewrite <-(Forall2_length _ _ _ HF).
  - intros Htext.
    assert (count_enqueues "" rs = 0%nat) as Hzero.
    { unfold count_enqueues. clear -Htext.
      induction Htext as [|[now r] rs Hr _ IH]; [done|].
      rewrite filter_cons_False; [done|].
      intros [[text E] Hdev]. simpl in *.
      by apply (text_SN_device r text). }
    rewrite Hlast, Hzero. split; [|done].
    rewrite Hzero in Hlen. apply nil_length_inv in Hlen.
    pose proof (inv_nonempty st HI "") as Hne.
    unfold queue_of in Hlen. destruct (deviceCommands st !! ""); [|done].
    simpl in Hlen. by subst.
Qed.

(** ** Lines *)

Section Lines.
Import Js.

Lemma trimStart_cases s :
  trimStart s = "" ∨ ∃ a t, trimStart s = String a t ∧ is_white_space a = false.
Proof.
  induction s as [|a s IH]; [by left|]. simpl.
  destruct (is_white_space a) eqn:E; [done|]. right. by exists a, s.
Qed.

Lemma trimEnd_head a t :
  is_white_space a = false → trimEnd (String a t) = String a (trimEnd t).
Proof. intros E. simpl. rewrite E. by destruct (trimEnd t). Qed.

Lemma trimEnd_idem s : trimEnd (trimEnd s) = trimEnd s.
Proof.
  induction s as [|a s IH]; [done|]. simpl.
  destruct (trimEnd s) as [|b t] eqn:E.
  - destruct (is_white_space a) eqn:Ea; [done|]. simpl. by rewrite Ea.
  - change (trimEnd (String a (String b t)))
      with (match trimEnd (String b t) with
            | "" => if is_white_space a then "" else String a ""
            | u => String a u
            end).
    by rewrite IH.
Qed.

(** [trim] is idempotent. *)
Lemma trim_idem s : trim (trim s) = trim s.
Proof.
  unfold trim. destruct (trimStart_cases s) as [->|(a & t & -> & Ea)]; [done|].
  rewrite trimEnd_head by done. simpl. rewrite Ea.
  rewrite <-trimEnd_head by done. apply trimEnd_idem.
Qed.

Lemma includes_trimStart x s :
  includes x s = false → includes x (trimStart s) = false.
Proof.
  induction s as [|a s IH]; [done|]. simpl.
  intros [Ha Hs]%orb_false_iff.
  destruct (is_white_space a); [by apply IH|]. simpl. by rewrite Ha, Hs.
Qed.

Lemma includes_trimEnd x s :
  includes x s = false → includes x (trimEnd s) = false.
Proof.
  induction s as [|a s IH]; [done|]. simpl.
  intros [Ha Hs]%orb_false_iff. specialize (IH Hs).
  destruct (trimEnd s) as [|b t].
  - destruct (is_white_space a); [done|]. simpl. by rewrite Ha.
  - simpl in *. by rewrite Ha, IH.
Qed.

Lemma includes_trim x s : includes x s = false → includes x (trim s) = false.
Proof. intros H. by apply includes_trimEnd, includes_trimStart. Qed.

Lemma includes_cons_head x a l :
  a ≠ x → Forall (λ p, includes x p = false) l →
  Forall (λ p, includes x p = false) (cons_head a l).
Proof.
  intros Ha [|p l' Hp Hl]; simpl; repeat constructor; simpl;
    rewrite ?bool_decide_eq_false_2; done.
Qed.

(** No piece of [split(/\r?\n/)] holds a line feed. *)
Lemma split_lines_no_LF s : Forall (λ p, includes LF p = false) (split_lines s).
Proof.
  induction s as [|a s IH]; [by repeat constructor|].
  simpl. case_decide as Ha; [by constructor|].
  destruct s as [|b s'].
  - by apply includes_cons_head.
  - case_decide as Hab.
    + destruct Hab as [_ ->].
      change (split_lines (String LF s')) with ("" :: split_lines s') in IH.
      constructor; [done|]. by inversion IH.
    + by apply includes_cons_head.
Qed.

(** A text without a line feed is one line. *)
Lemma split_lines_one s : includes LF s = false → split_lines s = [s].
Proof.
  induction s as [|a s IH]; [done|]. simpl.
  intros [Ha%bool_decide_eq_false Hs]%orb_false_iff.
  rewrite decide_False by done. rewrite (IH Hs). simpl.
  destruct s as [|b s']; [done|].
  rewrite decide_False; [done|]. by intros [_ ->].
Qed.

End Lines.

Lemma info_lines_clean (info line : string) :
  line ∈ info_lines info →
  line ≠ "" ∧ Js.trim line = line ∧ Js.includes Js.LF line = false
  ∧ info_lines line = [line].
Proof.
  unfold info_lines. intros [Hne Hin]%list_elem_of_filter.
  apply list_elem_of_fmap in Hin as (p & -> & Hp).
  pose proof (split_lines_no_LF info) as HLF.
  eapply Forall_forall in HLF; [|done].
  assert (Js.includes Js.LF (Js.trim p) = false) as HLF'
    by by apply includes_trim.
  split_and!; [done|apply trim_idem|done|].
  rewrite split_lines_one by done. simpl. rewrite trim_idem.
  by rewrite filter_cons_True, filter_nil.
Qed.

(** X10: the line that a poll prints for a command is a well-formed
    acknowledgment line for that command: split at the separators it gives
    the marker, the text of the id and the pieces of the payload; its id
    text is read back as the id of the command, and joining the fields after
    the second separator gives the payload back, separators included. *)
Theorem poll_line_reads_back (c : Command) :
  Js.split ":" (command_line c)
  = "C" :: Js.to_string (id c) :: Js.split ":" (command c)
  ∧ well_formed (command_line c)
  ∧ Js.strict_eq (id c) (line_id (command_line c)) = true
  ∧ Js.join ":" (drop 2 (Js.split ":" (command_line c))) = command c.
Proof.
  pose proof (NumberFacts.to_string_no_colon (id c)) as Hid.
  change (command_line c) with (ack_text (Js.to_string (id c)) (command c)).
  split_and!.
  - by apply split_ack_text.
  - by apply well_formed_ack_text.
  - rewrite line_id_ack_text by done. apply NumberFacts.Number_of_to_string.
  - by apply status_ack_text.
Qed.

(** X11: the lines that the batch acknowledgment works on are clean: none is
    empty, none begins or ends with white space, none holds a line feed; and
    each of them, sent as a request of its own, is again that one line. *)
Theorem batch_lines_are_clean (info line : string) :
  line ∈ info_lines info →
  line ≠ "" ∧ Js.trim line = line ∧ Js.includes Js.LF line = false
  ∧ info_lines line = [line].
Proof. apply info_lines_clean. Qed.

(** ** Batches line by line *)

Section Batches.
Implicit Types (st : Store) (s : AckLoop) (SN now line : string) (l : loc).

Lemma ack_line_same SN now s s' line :
  loop_objects s = loop_objects s' → loop_arr s = loop_arr s' →
  loop_objects (ack_line SN now s line) = loop_objects (ack_line SN now s' line)
  ∧ loop_arr (ack_line SN now s line) = loop_arr (ack_line SN now s' line).
Proof.
  intros Hh Ha. unfold ack_line. rewrite Hh, Ha. case_decide; [done|].
  by destruct (findIndex _ _ _) as [[??]|].
Qed.

Lemma ack_lines_same SN now lines s s' :
  loop_objects s = loop_objects s' → loop_arr s = loop_arr s' →
  loop_objects (foldl (ack_line SN now) s lines)
  = loop_objects (foldl (ack_line SN now) s' lines)
  ∧ loop_arr (foldl (ack_line SN now) s lines)
    = loop_arr (foldl (ack_line SN now) s' lines).
Proof.
  revert s s'. induction lines as [|line lines IH]; intros s s' Hh Ha; [done|].
  simpl. by apply IH; apply ack_line_same.
Qed.

Lemma single_ack_store SN now st line :
  SN ≠ "" → info_lines line = [line] →
  single_ack SN now st line
  = loop_store SN st
      (ack_line SN now
         (mkAckLoop (objects st) (queue_of st SN) [LogAckFrom SN line]) line).
Proof.
  intros HSN Hline. unfold single_ack. rewrite devicecmd_eq; [|done|].
  - by rewrite Hline.
  - apply info_lines_not_nil. by rewrite Hline.
Qed.

Lemma batch_as_singles SN now lines st log :
  Inv st → SN ≠ "" → Forall (λ line, info_lines line = [line]) lines →
  loop_store SN st
    (foldl (ack_line SN now) (mkAckLoop (objects st) (queue_of st SN) log) lines)
  = foldl (single_ack SN now) st lines.
Proof.
  intros HI HSN Hlines. revert st log HI.
  induction Hlines as [|line lines Hline _ IH]; intros st log HI.
  - apply loop_store_start, (inv_nonempty st HI).
  - simpl.
    set (s0 := mkAckLoop (objects st) (queue_of st SN) log).
    set (st1 := single_ack SN now st line).
    assert (Inv st1) as HI1 by apply Inv_devicecmd, HI.
    rewrite <-(IH st1 [] HI1).
    pose proof (single_ack_store SN now st line HSN Hline) as E. fold st1 in E.
    destruct (ack_line_same SN now s0
                (mkAckLoop (objects st) (queue_of st SN) [LogAckFrom SN line])
                line) as [Hh Ha]; [done..|].
    destruct (ack_lines_same SN now lines (ack_line SN now s0 line)
                (mkAckLoop (objects st1) (queue_of st1 SN) [])) as [Hh' Ha'].
    { by rewrite E, Hh. }
    { rewrite E, queue_of_loop_store, decide_True by done. by rewrite Ha. }
    unfold loop_store at 1 2. rewrite Hh', Ha'.
    f_equal; rewrite E; simpl; by rewrite ?update_queue_twice.
Qed.

Lemma single_ack_guard now st lines :
  foldl (single_ack "" now) st lines = st.
Proof.
  induction lines as [|line lines IH]; [done|]. simpl.
  by change (single_ack "" now st line) with st.
Qed.

(** A location that is not in the array is out of reach of the loop. *)
Lemma untouched_ack_lines SN now lines s l :
  l ∉ loop_arr s →
  let s' := foldl (ack_line SN now) s lines in
  loop_objects s' !! l = loop_objects s !! l ∧ l ∉ loop_arr s'.
Proof.
  revert s. induction lines as [|line lines IH]; intros s Hl; [done|].
  simpl.
  destruct (ack_line_cases SN now s line)
    as [[Hh Ha]|(v & idx & l' & ack & Hf & Hh & Ha)].
  - destruct (IH (ack_line SN now s line)) as [IH1 IH2]; [by rewrite Ha|].
    by rewrite IH1, Hh.
  - apply list_find_Some in Hf as (Hidx & _ & _).
    destruct (IH (ack_line SN now s line)) as [IH1 IH2].
    { rewrite Ha. by intros ?%list_elem_of_delete_inv. }
    split; [|done]. rewrite IH1, Hh. apply list_lookup_alter_ne.
    intros ->. apply Hl. by eapply list_elem_of_lookup_2.
Qed.

End Batches.

(** X12: within a batch, the first line that names a command decides: on a
    store that the server reaches, when the first line of the batch names
    the id of a command of the queue, that command is done with the result
    of that line and is out of the queue after the batch, whatever lines
    follow; a later line with the same id finds no command and changes
    nothing of it. *)
Theorem first_ack_line_decides (rs : list (string * Request))
    (SN info idtext result now : string) (rest : list string)
    (l : loc) (c : Command) :
  let st := run rs init in
  SN ≠ "" → l ∈ queue_of st SN → objects st !! l = Some c →
  info_lines info = ack_text idtext result :: rest →
  Js.includes ":" idtext = false →
  Js.strict_eq (id c) (Js.Number_of idtext) = true →
  let st' := store (devicecmd (Some SN) (Some info) now st) in
  objects st' !! l = Some (set_done now result c) ∧ l ∉ queue_of st' SN.
Proof.
  intros st HSN Hl Hc Hlines Hid Hv st'.
  assert (Inv st) as HI by apply Inv_reachable.
  destruct (findIndex_unique (objects st) (queue_of st SN)
              (Js.Number_of idtext) l c) as [idx Hf];
    [by apply ids_sorted_Inv|done..|].
  unfold st'. rewrite devicecmd_eq; [|done|].
  2:{ apply info_lines_not_nil. by rewrite Hlines. }
  rewrite Hlines. simpl foldl.
  rewrite (ack_line_found SN now _ _ idx l);
    [|by apply well_formed_ack_text|by rewrite line_id_ack_text].
  rewrite status_ack_text by done. simpl.
  rewrite queue_of_loop_store, decide_True by done.
  match goal with
  | |- context [foldl _ ?s0 rest] =>
      destruct (untouched_ack_lines SN now rest s0 l) as [Ho Ha]
  end.
  { simpl. apply not_elem_of_delete; [by apply Inv_NoDup|].
    by apply list_find_Some in Hf as (? & _). }
  split; [|done]. rewrite Ho. simpl.
  by rewrite list_lookup_alter_eq, Hc.
Qed.

(** X13: a batch is its lines one after the other: on a store that the
    server reaches, the store after a batch acknowledgment is the store
    after as many requests, each with one of its lines, in their order. *)
Theorem batch_is_its_lines_in_turn (rs : list (string * Request))
    (SN info now : string) :
  let st := run rs init in
  store (devicecmd (Some SN) (Some info) now st)
  = foldl (single_ack SN now) st (info_lines info).
Proof.
  intros st. assert (Inv st) as HI by apply Inv_reachable.
  destruct (devicecmd_cases (Some SN) (Some info))
    as [[E [Hm|Hm]]|(SN' & info' & [= <-] & [= <-] & HSN & Hinfo)].
  - rewrite E. simpl. simpl in Hm. apply bool_decide_eq_true in Hm. subst SN.
    by rewrite single_ack_guard.
  - rewrite E. simpl in *. by rewrite Hm.
  - rewrite devicecmd_eq by done. simpl. apply batch_as_singles; [done..|].
    apply Forall_forall. intros line Hin.
    by destruct (info_lines_clean info line Hin) as (_ & _ & _ & ?).
Qed.

(** ** Queue, deliver, acknowledge *)

Section Round.
Implicit Types (st : Store) (sn text now : string).






End Round.


(** ** The further properties at concrete requests *)

(** Command 1 of A1 through requests for the device B2 and one more command
    for A1. *)
Lemma queued_command_is_kept_witness :
  let st := run [("t0", QueueCommand (Some (JString "A1")) (Some (JString "CHECK")))] init in
  let rs := [("t1", QueueCommand (Some (JString "B2")) (Some (JString "INFO")));
             ("t2", GetRequest (Some "B2"));
             ("t3", RequestUsers (Some (JString "A1")));
             ("t4", DeviceCmd (Some "B2") (Some "C:1:OK"))] in
  0 ∈ queue_of (run rs st) "A1"
  ∧ objects (run rs st) !! 0
    = Some (mkCommand 1 "CHECK" pending "t0" None None None).
Proof.
  apply (queued_command_is_kept
           [("t0", QueueCommand (Some (JString "A1")) (Some (JString "CHECK")))]).
  - vm_compute. left.
  - reflexivity.
  - repeat constructor.
Defined.

(** A poll of B2 seen from A1. *)
Lemma other_devices_are_untouched_witness :
  let st := run [("t0", QueueCommand (Some (JString "A1")) (Some (JString "CHECK")));
                 ("t1", QueueCommand (Some (JString "B2")) (Some (JString "INFO")))] init in
  let r := GetRequest (Some "B2") in
  response (commands "A1" (store (handle "t2" r st)))
  = response (commands "A1" st)
  ∧ last_id (store (handle "t2" r st)) "A1" = last_id st "A1".
Proof.
  apply (other_devices_are_untouched
           [("t0", QueueCommand (Some (JString "A1")) (Some (JString "CHECK")));
            ("t1", QueueCommand (Some (JString "B2")) (Some (JString "INFO")))]
           "t2" (GetRequest (Some "B2")) "A1").
  discriminate.
Defined.

(** Command 1 of A1, once sent, through further polls. *)
Lemma command_never_goes_back_witness :
  let rs := [("t3", GetRequest (Some "A1"));
             ("t4", RequestAttendance (Some (JString "A1")));
             ("t5", GetRequest (Some "A1"))] in
  let c := mkCommand 1 "CHECK" sent "t0" (Some "t2") None None in
  ∃ c', objects (run rs two_sent) !! 0 = Some c'
        ∧ id c' = id c ∧ command c' = command c ∧ queuedAt c' = queuedAt c
        ∧ (rank (status c) ≤ rank (status c'))%nat
        ∧ (status c ≠ pending → ∀ sn, 0 ∉ pendingFor (run rs two_sent) sn).
Proof.
  intros rs c. apply (command_never_goes_back two_sent rs 0 c). reflexivity.
Defined.


(** A poll adds nothing. *)
Lemma only_accepted_enqueues_add_witness :
  let st' := store (handle "t1" (GetRequest (Some "A1")) one_queued) in
  length (objects st') = length (objects one_queued)
  ∧ deviceSeq st' = deviceSeq one_queued
  ∧ (∀ sn, queue_of st' sn `sublist_of` queue_of one_queued sn).
Proof.
  apply (only_accepted_enqueues_add "t1" (GetRequest (Some "A1")) one_queued).
  reflexivity.
Defined.

(** A line between white space and empty lines. *)
Lemma batch_lines_are_clean_witness :
  let info := "  C:1:OK " +:+ String Js.LF (String Js.LF " X:1") in
  info_lines info = ["C:1:OK"; "X:1"]
  ∧ Js.trim "C:1:OK" = "C:1:OK" ∧ info_lines "C:1:OK" = ["C:1:OK"].
Proof.
  intros info. split; [reflexivity|].
  destruct (batch_lines_are_clean info "C:1:OK") as (_ & Ht & _ & Hl).
  - vm_compute. left.
  - split; [exact Ht|exact Hl].
Defined.

(** Two lines for command 1 of A1: the first one decides. *)
Lemma first_ack_line_decides_witness :
  let st := run [("t0", QueueCommand (Some (JString "A1")) (Some (JString "CHECK")))] init in
  let info := "C:1:OK" +:+ String Js.LF "C:1:ERR" in
  let st' := store (devicecmd (Some "A1") (Some info) "t1" st) in
  objects st' !! 0
  = Some (mkCommand 1 "CHECK" done "t0" None (Some "t1") (Some "OK"))
  ∧ 0 ∉ queue_of st' "A1".
Proof.
  apply (first_ack_line_decides
           [("t0", QueueCommand (Some (JString "A1")) (Some (JString "CHECK")))]
           "A1" ("C:1:OK" +:+ String Js.LF "C:1:ERR") "1" "OK" "t1"
           ["C:1:ERR"] 0 (mkCommand 1 "CHECK" pending "t0" None None None)).
  - discriminate.
  - vm_compute. left.
  - reflexivity.
  - reflexivity.
  - reflexivity.
  - reflexivity.
Defined.


(** A command queued under an empty array as SN stays pending through a
    poll and an acknowledgment for the empty SN; a text as SN makes no such
    queue. *)
Lemma empty_SN_queue_is_never_served_witness :
  let rs := [("t0", QueueCommand (Some (JArray [])) (Some (JString "CHECK")));
             ("t1", GetRequest (Some ""));
             ("t2", DeviceCmd (Some "") (Some "C:1:OK"))] in
  let rs' := [("t0", QueueCommand (Some (JString "A1")) (Some (JString "CHECK")))] in
  queue_commands (run rs init) ""
  = [mkCommand 1 "CHECK" pending "t0" None None None]
  ∧ Forall (λ c, status c = pending) (queue_commands (run rs init) "")
  ∧ deviceCommands (run rs' init) !! "" = None.
Proof.
  intros rs rs'.
  destruct (empty_SN_queue_is_never_served rs) as (Hpend & _).
  destruct (empty_SN_queue_is_never_served rs') as (_ & _ & _ & Htext).
  destruct Htext as [Hnone _]; [by repeat constructor|].
  split; [reflexivity|]. split; [exact Hpend|exact Hnone].
Defined.

(** * The tables of users and attendance *)

(** ** White space as a separator *)

Section Tokens.
Import Js JsFacts.

Lemma split_space_from_not_nil b s : split_space_from b s ≠ [].
Proof.
  revert b. induction s as [|a s IH]; intros b; simpl; [done|].
  destruct (is_white_space a).
  - destruct b; [apply IH|done].
  - specialize (IH false). by destruct (split_space_from false s).
Qed.

(** A text without white space stays in front of the first piece. *)
Lemma split_space_token b t r :
  t ≠ "" → has_space t = false →
  split_space_from b (t +:+ r)
  = match split_space_from false r with
    | h :: tl => (t +:+ h) :: tl
    | [] => [t]
    end.
Proof.
  intros Hne Ht. revert b Hne.
  induction t as [|a t IH]; intros b Hne; [done|].
  simpl in Ht. apply orb_false_iff in Ht as [Ha Ht].
  rewrite app_String. simpl. rewrite Ha.
  destruct t as [|a' t'].
  - rewrite app_empty_l.
    pose proof (split_space_from_not_nil false r).
    by destruct (split_space_from false r).
  - rewrite (IH Ht false) by done.
    pose proof (split_space_from_not_nil false r).
    by destruct (split_space_from false r).
Qed.

Lemma split_space_skip s r :
  blank s = true → split_space_from true (s +:+ r) = split_space_from true r.
Proof.
  induction s as [|a s IH]; [done|]. intros Hs. simpl in Hs.
  apply andb_true_iff in Hs as [Ha Hs].
  rewrite app_String. simpl. rewrite Ha. by apply IH.
Qed.

Lemma split_space_from_token b a r :
  is_white_space a = false →
  split_space_from b (String a r) = split_space_from false (String a r).
Proof. intros Ha. simpl. by rewrite Ha. Qed.

(** A separator ends a piece. *)
Lemma split_space_separator s a r :
  separator s → is_white_space a = false →
  split_space_from false (s +:+ String a r)
  = "" :: split_space_from false (String a r).
Proof.
  intros [Hne Hs] Ha. destruct s as [|b s]; [done|].
  simpl in Hs. apply andb_true_iff in Hs as [Hb Hs].
  rewrite app_String.
  change (split_space_from false (String b (s +:+ String a r)))
    with (if is_white_space b
          then "" :: split_space_from true (s +:+ String a r)
          else cons_head b (split_space_from false (s +:+ String a r))).
  rewrite Hb, split_space_skip by done.
  by rewrite (split_space_from_token true).
Qed.

Lemma token_head t : token t → ∃ a t', t = String a t' ∧ is_white_space a = false.
Proof.
  intros [Hne Ht]. destruct t as [|a t']; [done|].
  simpl in Ht. apply orb_false_iff in Ht as [Ha _]. by exists a, t'.
Qed.

Lemma weave_head t rest :
  token t → ∃ a r, weave t rest = String a r ∧ is_white_space a = false.
Proof.
  intros (a & t' & -> & Ha)%token_head.
  destruct rest as [|[sep t''] rest]; simpl.
  - by exists a, t'.
  - rewrite app_String. by eexists a, _.
Qed.

(** The pieces of woven tokens are the tokens. *)
Lemma split_space_weave t rest :
  token t → Forall (λ p, separator p.1 ∧ token p.2) rest →
  split_space (weave t rest) = t :: rest.*2.
Proof.
  unfold split_space. intros Ht Hrest. revert t Ht.
  induction Hrest as [|[sep t'] rest [Hsep Ht'] _ IH]; intros t [Hne Ht].
  - simpl. rewrite <-(app_empty_r t) at 1.
    rewrite split_space_token by done. simpl. by rewrite app_empty_r.
  - simpl in *. rewrite split_space_token by done.
    destruct (weave_head t' rest Ht') as (a & r & E & Ha).
    rewrite E, split_space_separator by done.
    rewrite <-E, IH by done. by rewrite app_empty_r.
Qed.

Lemma trimStart_blank s r : blank s = true → trimStart (s +:+ r) = trimStart r.
Proof.
  induction s as [|a s IH]; [done|]. intros Hs. simpl in Hs.
  apply andb_true_iff in Hs as [Ha Hs].
  rewrite app_String. simpl. rewrite Ha. by apply IH.
Qed.

Lemma trimEnd_blank s : blank s = true → trimEnd s = "".
Proof.
  induction s as [|a s IH]; [done|]. simpl.
  intros [Ha Hs]%andb_true_iff. by rewrite IH, Ha.
Qed.

Lemma trimEnd_app_blank r s : blank s = true → trimEnd (r +:+ s) = trimEnd r.
Proof.
  intros Hs. induction r as [|a r IH].
  - rewrite app_empty_l. by apply trimEnd_blank.
  - rewrite app_String. simpl. by rewrite IH.
Qed.

Lemma trimEnd_token t : token t → trimEnd t = t.
Proof.
  intros [Hne Ht]. induction t as [|a t IH]; [done|].
  simpl in Ht. apply orb_false_iff in Ht as [Ha Ht].
  rewrite trimEnd_head by done.
  destruct t as [|a' t']; [done|]. by rewrite IH.
Qed.

Lemma trimEnd_app_fixed u v :
  v ≠ "" → trimEnd v = v → trimEnd (u +:+ v) = u +:+ v.
Proof.
  intros Hne Hv. induction u as [|a u IHu]; [done|].
  rewrite app_String. simpl. rewrite IHu.
  destruct (u +:+ v) eqn:E; [|done].
  destruct u; [|done]. by rewrite app_empty_l in E.
Qed.

Lemma trimEnd_weave t rest :
  token t → Forall (λ p, separator p.1 ∧ token p.2) rest →
  trimEnd (weave t rest) = weave t rest.
Proof.
  intros Ht Hrest. revert t Ht.
  induction Hrest as [|[sep t'] rest [Hsep Ht'] _ IH]; intros t Ht; simpl.
  - by apply trimEnd_token.
  - simpl in *.
    destruct (weave_head t' rest Ht') as (a & r & E & Ha).
    rewrite <-app_assoc.
    apply trimEnd_app_fixed; [by rewrite E|by apply IH].
Qed.

(** Trimming removes the white space around woven tokens. *)
Lemma trim_weave pad1 t rest pad2 :
  blank pad1 = true → blank pad2 = true →
  token t → Forall (λ p, separator p.1 ∧ token p.2) rest →
  trim (pad1 +:+ weave t rest +:+ pad2) = weave t rest.
Proof.
  intros H1 H2 Ht Hrest. unfold trim.
  rewrite trimStart_blank by done.
  destruct (weave_head t rest Ht) as (a & r & E & Ha).
  assert (trimStart (weave t rest +:+ pad2) = weave t rest +:+ pad2) as ->.
  { rewrite E, app_String. simpl. by rewrite Ha. }
  rewrite trimEnd_app_blank by done. by apply trimEnd_weave.
Qed.

End Tokens.

(** ** The shape of a line *)

Section Shape_of_lines.
Import Js JsFacts.

Lemma weave_cons a t rest : weave (String a t) rest = String a (weave t rest).
Proof. by destruct rest as [|[sep t'] rest]. Qed.

Lemma blank_app s r : blank (s +:+ r) = blank s && blank r.
Proof.
  induction s as [|a s IH]; [done|]. rewrite app_String. simpl.
  by rewrite IH, andb_assoc.
Qed.

(** A text is white space, or tokens with separators between them and white
    space around them. *)
Lemma line_shape s :
  blank s = true
  ∨ ∃ pad1 t rest pad2,
      blank pad1 = true ∧ blank pad2 = true ∧ token t
      ∧ Forall (λ p, separator p.1 ∧ token p.2) rest
      ∧ s = pad1 +:+ weave t rest +:+ pad2.
Proof.
  induction s as [|a s IH]; [by left|].
  destruct (is_white_space a) eqn:Ea.
  - destruct IH as [Hs|(pad1 & t & rest & pad2 & H1 & H2 & Ht & Hrest & ->)].
    + left. simpl. by rewrite Ea.
    + right. exists (String a pad1), t, rest, pad2.
      split_and!; try done. simpl. by rewrite Ea.
  - right.
    destruct IH as [Hs|(pad1 & t & rest & pad2 & H1 & H2 & Ht & Hrest & ->)].
    + exists "", (String a ""), [], s. split_and!; try done.
      split; [done|]. simpl. by rewrite Ea.
    + destruct pad1 as [|b pad1].
      * exists "", (String a t), rest, pad2. split_and!; try done.
        -- destruct Ht as [_ Ht]. split; [done|]. simpl. by rewrite Ea.
        -- by rewrite weave_cons, !app_empty_l, app_String.
      * exists "", (String a ""), ((String b pad1, t) :: rest), pad2.
        split_and!; try done.
        -- split; [done|]. simpl. by rewrite Ea.
        -- constructor; [|done]. by split.
        -- simpl. rewrite app_empty_l, !app_String, app_empty_l.
           by rewrite app_String, app_assoc.
Qed.

Lemma trim_blank s : blank s = true → trim s = "".
Proof.
  intros Hs. unfold trim. rewrite <-(app_empty_r s).
  by rewrite trimStart_blank.
Qed.

(** The parts of a trimmed line: the empty text alone, or tokens. *)
Lemma parts_of_line line :
  (trim line = "" ∧ split_space (trim line) = [""])
  ∨ ∃ t rest, token t ∧ Forall (λ p, separator p.1 ∧ token p.2) rest
      ∧ trim line = weave t rest ∧ split_space (trim line) = t :: rest.*2.
Proof.
  destruct (line_shape line)
    as [Hs|(pad1 & t & rest & pad2 & H1 & H2 & Ht & Hrest & ->)].
  - left. by rewrite trim_blank.
  - right. exists t, rest. rewrite trim_weave by done.
    split_and!; try done. by apply split_space_weave.
Qed.

Lemma join_weave t ts :
  join " " (t :: ts) = weave t ((λ t', (" ", t')) <$> ts).
Proof.
  revert t. induction ts as [|t' ts IH]; intros t; [done|].
  rewrite join_cons, fmap_cons. cbn [weave]. by rewrite IH.
Qed.

(** The parts of a line are the parts of its parts joined by one space. *)
Lemma parts_of_joined_parts line :
  split_space (trim (join " " (split_space (trim line))))
  = split_space (trim line).
Proof.
  destruct (parts_of_line line)
    as [[_ ->]|(t & rest & Ht & Hrest & _ & ->)]; [done|].
  rewrite join_weave.
  assert (Forall (λ p : string * string, separator p.1 ∧ token p.2)
            ((λ t', (" ", t')) <$> rest.*2)) as Hrest'.
  { apply Forall_fmap, Forall_fmap. eapply Forall_impl; [exact Hrest|].
    intros [sep t'] [_ Ht']. by split. }
  pose proof (trim_weave "" t _ "" eq_refl eq_refl Ht Hrest') as E.
  rewrite app_empty_l, app_empty_r in E.
  rewrite E, split_space_weave by done.
  f_equal. rewrite <-list_fmap_compose. by rewrite list_fmap_id.
Qed.

End Shape_of_lines.

(** ** parseAttendanceLine *)

Section Attendance_line.
Import Js JsFacts.

Lemma or_text_empty v : or_text v "" = default "" v.
Proof. destruct v as [s|]; [|done]. simpl. unfold falsy. by case_bool_decide. Qed.

Lemma token_not_falsy t : token t → falsy t = false.
Proof. intros [Hne _]. unfold falsy. by rewrite bool_decide_eq_false_2. Qed.

(** The time stamp that the tokens after the PIN give. *)
Lemma timestamp_of_tokens t ts :
  Forall token ts →
  timestamp_of (t :: ts)
  = match ts with
    | [] => "undefined"
    | [d] => d
    | d :: h :: _ => d +:+ " " +:+ h
    end.
Proof.
  intros Hts. unfold timestamp_of.
  destruct ts as [|d [|h ts]]; simpl; [done|by rewrite app_empty_r|].
  apply Forall_cons in Hts as [_ [Hh _]%Forall_cons].
  by rewrite token_not_falsy.
Qed.

(** The record of a line is read off its tokens by position. *)
Lemma parseAttendanceLine_tokens line t ts :
  split_space (trim line) = t :: ts → Forall token ts →
  parseAttendanceLine line
  = {[ "PIN" := VString t;
       "Timestamp" := VString match ts with
                              | [] => "undefined"
                              | [d] => d
                              | d :: h :: _ => d +:+ " " +:+ h
                              end;
       "VerifyMode" := VString (default "" (ts !! 2%nat));
       "InOutMode" := VString (default "" (ts !! 3%nat));
       "WorkCode" := VString (default "" (ts !! 4%nat)) ]}.
Proof.
  intros E Hts. unfold parseAttendanceLine. rewrite E.
  rewrite timestamp_of_tokens, !or_text_empty by done.
  by rewrite insert_empty.
Qed.

End Attendance_line.

(** X15: parseAttendanceLine reads a line by position.  For a line of tokens
    (texts without white space) with any white space between and around
    them, the record has exactly five properties: PIN is the first token;
    Timestamp is the second and third tokens with one space between, the
    second token alone when there is no third, and the text "undefined"
    when the line is a PIN only; VerifyMode, InOutMode and WorkCode are the
    fourth, fifth and sixth tokens, or the empty text.  Further tokens are
    not read. *)
Theorem attendance_fields_by_position (pad1 t : string)
    (rest : list (string * string)) (pad2 : string) :
  blank pad1 = true → blank pad2 = true → token t →
  Forall (λ p, separator p.1 ∧ token p.2) rest →
  parseAttendanceLine (pad1 +:+ weave t rest +:+ pad2)
  = {[ "PIN" := VString t;
       "Timestamp" := VString match rest.*2 with
                              | [] => "undefined"
                              | [d] => d
                              | d :: h :: _ => d +:+ " " +:+ h
                              end;
       "VerifyMode" := VString (default "" (rest.*2 !! 2%nat));
       "InOutMode" := VString (default "" (rest.*2 !! 3%nat));
       "WorkCode" := VString (default "" (rest.*2 !! 4%nat)) ]}.
Proof.
  intros H1 H2 Ht Hrest. apply parseAttendanceLine_tokens.
  - rewrite trim_weave by done. by apply split_space_weave.
  - apply Forall_fmap. eapply Forall_impl; [exact Hrest|]. by intros ? [_ ?].
Qed.

(** X16: for parseAttendanceLine only the tokens of a line count, not the
    white space: the record of a line is the record of its parts joined by
    single spaces. *)
Theorem attendance_white_space_does_not_count (line : string) :
  parseAttendanceLine (Js.join " " (Js.split_space (Js.trim line)))
  = parseAttendanceLine line.
Proof. unfold parseAttendanceLine. by rewrite parts_of_joined_parts. Qed.

(** ** The attendance table *)

Section Attendance_table.
Import Js JsFacts.

Lemma json_clean o : clean o → json o = o.
Proof.
  intros Ho. apply map_eq. intros k. unfold json. rewrite lookup_fmap.
  destruct (o !! k) as [v|] eqn:E; [|done]. simpl. f_equal. by apply (Ho k).
Qed.

Lemma json_clean_list l : Forall clean l → json <$> l = l.
Proof.
  induction 1 as [|o l Ho _ IH]; [done|]. by rewrite fmap_cons, json_clean, IH.
Qed.

Lemma foldl_push {A B} (f : B → A) (l : list A) (bs : list B) :
  foldl (λ l b, l ++ [f b]) l bs = l ++ (f <$> bs).
Proof.
  revert l. induction bs as [|b bs IH]; intros l; simpl.
  - by rewrite app_nil_r.
  - by rewrite IH, <-(assoc_L (++)).
Qed.


(** A line that the attendance table reads starts with a token. *)
Lemma attendance_line_tokens body line :
  line ∈ attendance_lines body →
  ∃ t ts, split_space (trim line) = t :: ts ∧ Forall token (t :: ts).
Proof.
  unfold attendance_lines, body_lines.
  intros [Hne (p & -> & _)%list_elem_of_fmap]%list_elem_of_filter.
  rewrite trim_idem.
  destruct (parts_of_line p) as [[E _]|(t & rest & Ht & Hrest & _ & E)]; [done|].
  exists t, rest.*2. split; [done|]. constructor; [done|].
  apply Forall_fmap. eapply Forall_impl; [exact Hrest|]. by intros ? [_ ?].
Qed.

Lemma lookup_tokens (ts : list string) i :
  Forall token ts → has_space (default "" (ts !! i)) = false.
Proof.
  intros Hts. destruct (ts !! i) as [t|] eqn:E; [|done].
  by destruct (Forall_lookup_1 _ _ _ _ Hts E).
Qed.

(** What the table stores for a line is a record. *)
Lemma received_record body line now SN :
  line ∈ attendance_lines body →
  attendance_record (received now SN (parseAttendanceLine line)).
Proof.
  intros (t & ts & E & [Ht Hts]%Forall_cons)%attendance_line_tokens.
  rewrite (parseAttendanceLine_tokens line t ts) by done.
  set (stamp := match ts with
                | [] => "undefined" | [d] => d | d :: h :: _ => d +:+ " " +:+ h
                end).
  assert (stamp ≠ "") as Hstamp.
  { unfold stamp. destruct ts as [|d [|h ts]]; [done| |].
    - by apply Forall_cons in Hts as [[? _] _].
    - apply Forall_cons in Hts as [[? _] _]. by destruct d. }
  unfold attendance_record, received, define.
  split_and!.
  - exists t. by destruct SN; simplify_map_eq.
  - exists stamp. by destruct SN; simplify_map_eq.
  - intros k Hk. rewrite !elem_of_cons in Hk.
    destruct Hk as [->|[->|[->|[]%elem_of_nil]]];
      eexists; (split; [by destruct SN; simplify_map_eq|]);
      by apply lookup_tokens.
  - exists now. by simplify_map_eq.
  - apply map_Forall_insert_2; [by split; [solve_key|split; [eexists|]]|].
    assert (map_Forall
      (λ k v, k ∈ ["PIN"; "Timestamp"; "VerifyMode"; "InOutMode"; "WorkCode";
                   "SN"; "receivedAt"]
              ∧ (k ≠ "SN" → ∃ s, v = VString s)
              ∧ (k = "SN" → ∃ x, v = value_of x))
      ({[ "PIN" := VString t; "Timestamp" := VString stamp;
          "VerifyMode" := VString (default "" (ts !! 2%nat));
          "InOutMode" := VString (default "" (ts !! 3%nat));
          "WorkCode" := VString (default "" (ts !! 4%nat)) ]} : Obj)) as Hlog.
    { repeat (apply map_Forall_insert_2;
              [by split; [solve_key|split; [eexists|]]|]).
      apply map_Forall_empty. }
    destruct SN as [sn|]; simpl.
    + apply map_Forall_insert_2; [|done].
      split; [solve_key|]. split; [done|]. by exists sn.
    + by apply map_Forall_delete.
Qed.

Lemma json_value_of x : json_value (value_of x) = value_of x.
Proof. by destruct x. Qed.

Lemma record_clean e : attendance_record e → clean e.
Proof.
  intros (_ & _ & _ & _ & H) k v Hk.
  destruct (H k v Hk) as (_ & Htext & HSN).
  destruct (decide (k = "SN")) as [Hk'|Hk'].
  - destruct (HSN Hk') as [x ->]. apply json_value_of.
  - by destruct (Htext Hk') as [s ->].
Qed.

(** What an ATTLOG request does to a table of records. *)
Lemma cdata_post_attlog SN body now d :
  Forall attendance_record (attendance d) →
  disk (cdata_post (Some "ATTLOG") SN body now d)
  = {| users := users d;
       attendance :=
         attendance d
         ++ (received now SN ∘ parseAttendanceLine <$> attendance_lines body) |}.
Proof.
  intros Hd. unfold cdata_post. rewrite decide_True by done.
  fold (attendance_lines body). rewrite length_fmap.
  case_decide as Hlen.
  - apply nil_length_inv in Hlen. rewrite Hlen. simpl.
    rewrite app_nil_r. by destruct d.
  - cbn [disk saveJSON loadJSON]. f_equal.
    rewrite foldl_push, <-list_fmap_compose.
    apply json_clean_list, Forall_app. split.
    + eapply Forall_impl; [exact Hd|]. apply record_clean.
    + apply Forall_fmap, Forall_forall. intros line Hline.
      eapply record_clean, received_record, Hline.
Qed.

(** A request extends the attendance table by records, or leaves it. *)
Lemma serve_attendance now r d :
  Forall attendance_record (attendance d) →
  ∃ new, attendance (disk (serve now r d)) = attendance d ++ new
         ∧ Forall attendance_record new.
Proof.
  intros Hd.
  assert (∃ new, attendance d = attendance d ++ new
                 ∧ Forall attendance_record new) as Hsame.
  { exists []. by rewrite app_nil_r. }
  destruct r as [|table SN body| |]; try exact Hsame.
  cbn [serve].
  destruct (decide (table = Some "ATTLOG")) as [->|Hne].
  - rewrite cdata_post_attlog by done. eexists. split; [done|].
    apply Forall_fmap, Forall_forall. intros line Hline.
    eapply received_record, Hline.
  - unfold cdata_post. rewrite decide_False by done.
    repeat case_decide; exact Hsame.
Qed.

Lemma run_data_snoc rs now r d :
  run_data (rs ++ [(now, r)]) d = disk (serve now r (run_data rs d)).
Proof. unfold run_data. by rewrite foldl_app. Qed.

Lemma run_data_app rs rs' d :
  run_data (rs ++ rs') d = run_data rs' (run_data rs d).
Proof. unfold run_data. by rewrite foldl_app. Qed.

Lemma run_attendance rs d :
  Forall attendance_record (attendance d) →
  ∃ new, attendance (run_data rs d) = attendance d ++ new
         ∧ Forall attendance_record new.
Proof.
  intros Hd. induction rs as [|[now r] rs IH] using rev_ind.
  - exists []. by rewrite app_nil_r.
  - destruct IH as (new & E & Hnew). rewrite run_data_snoc.
    destruct (serve_attendance now r (run_data rs d)) as (new' & E' & Hnew').
    { rewrite E. by apply Forall_app. }
    exists (new ++ new'). rewrite E', E, <-(assoc_L (++)). split; [done|].
    by apply Forall_app.
Qed.

Lemma attendance_records rs :
  Forall attendance_record (attendance (run_data rs fresh)).
Proof.
  destruct (run_attendance rs fresh) as (new & -> & Hnew); [by constructor|].
  done.
Qed.

End Attendance_table.

(** X17: an ATTLOG request stores one record for every line of the body
    that is not white space only, in the order of the lines, behind the
    records that the table holds: no line is rejected and no record is
    recognised as a duplicate.  Each new record carries the time of the
    request and the SN of the query as it is, a text or not (no SN property
    when the query has none).  The users table is not changed and the answer is always
    OK:ATTLOG 10001. *)
Theorem attlog_stores_every_line (rs : list (string * DataRequest))
    (now : string) (SN : option JsValue) (body : option string) :
  let d := run_data rs fresh in
  let o := cdata_post (Some "ATTLOG") SN body now d in
  reply o = Plain "OK:ATTLOG 10001"
  ∧ users (disk o) = users d
  ∧ attendance (disk o)
    = attendance d
      ++ (received now SN ∘ parseAttendanceLine <$> attendance_lines body)
  ∧ length (attendance (disk o))
    = (length (attendance d) + length (attendance_lines body))%nat
  ∧ ∀ e, e ∈ drop (length (attendance d)) (attendance (disk o)) →
      e !! "receivedAt" = Some (VString now) ∧ e !! "SN" = value_of <$> SN.
Proof.
  intros d o.
  assert (disk o = {| users := users d;
                      attendance := attendance d
                        ++ (received now SN ∘ parseAttendanceLine
                              <$> attendance_lines body) |}) as E
    by apply cdata_post_attlog, attendance_records.
  split_and!.
  - unfold o, cdata_post. rewrite decide_True by done. by case_decide.
  - by rewrite E.
  - by rewrite E.
  - rewrite E. cbn [attendance]. by rewrite length_app, length_fmap.
  - rewrite E. cbn [attendance]. rewrite drop_app_length.
    intros e (line & -> & _)%list_elem_of_fmap.
    unfold received, define, compose.
    split; [by simplify_map_eq|].
    destruct SN as [sn|]; by simplify_map_eq.
Qed.

(** X18: the attendance table only grows at its end: whatever requests
    follow, the records that the file holds stay in it, unchanged and at
    their places. *)
Theorem attendance_is_append_only (rs rs' : list (string * DataRequest)) :
  attendance (run_data rs fresh)
  `prefix_of` attendance (run_data (rs ++ rs') fresh).
Proof.
  rewrite run_data_app.
  destruct (run_attendance rs' (run_data rs fresh)) as (new & -> & _).
  - apply attendance_records.
  - by exists new.
Qed.

(** X19: every record of the attendance table has a PIN that is a token (not
    empty, no white space), a Timestamp that is not empty, the texts
    VerifyMode, InOutMode and WorkCode without white space, and receivedAt;
    beside these it has at most the property SN.  Its values are texts,
    but for the SN, which is the SN of the query as it was: a text, or the
    array of a parameter that the query repeats. *)
Theorem attendance_holds_records (rs : list (string * DataRequest)) :
  Forall attendance_record (attendance (run_data rs fresh)).
Proof. apply attendance_records. Qed.

(** ** The lines of a body *)

Section Body_lines.
Import Js JsFacts.

(** A piece of [split("\n")] is the piece of [split(/\r?\n/)], or that
    piece and the carriage return which ended it. *)
Lemma split_LF_lines s :
  Forall2 (λ p q, q = p ∨ q = p +:+ String CR "") (split_lines s) (split LF s).
Proof.
  assert (∀ a l l',
    Forall2 (λ p q, q = p ∨ q = p +:+ String CR "") l l' →
    Forall2 (λ p q, q = p ∨ q = p +:+ String CR "")
      (cons_head a l) (cons_head a l')) as Hcons.
  { intros a l l' [|p q l1 l1' [->| ->] Hl]; simpl; constructor; auto. }
  induction s as [|a s IH]; [by repeat constructor|].
  cbn [split split_lines].
  destruct (decide (a = LF)) as [->|Ha]; [by constructor; [left|]|].
  destruct s as [|b s']; [by apply Hcons|].
  case_decide as Hab; [|by apply Hcons].
  destruct Hab as [-> ->].
  change (split_lines (String LF s')) with ("" :: split_lines s') in IH.
  change (split LF (String LF s')) with ("" :: split LF s') in IH.
  apply Forall2_cons in IH as [_ IH].
  change (split LF (String LF s')) with ("" :: split LF s').
  constructor; [by right|done].
Qed.

Lemma trimStart_app p r :
  blank p = false → trimStart (p +:+ r) = trimStart p +:+ r.
Proof.
  induction p as [|a p IH]; [done|]. intros Hp. simpl in Hp.
  rewrite app_String. simpl.
  destruct (is_white_space a); [by apply IH|done].
Qed.

Lemma trim_app_blank p r : blank r = true → trim (p +:+ r) = trim p.
Proof.
  intros Hr. destruct (blank p) eqn:Hp.
  - rewrite !trim_blank; [done..|]. by rewrite blank_app, Hp, Hr.
  - unfold trim. rewrite trimStart_app by done. by apply trimEnd_app_blank.
Qed.

Lemma trim_split_LF s : trim <$> split LF s = trim <$> split_lines s.
Proof.
  pose proof (split_LF_lines s) as H.
  induction H as [|p q l l' [->| ->] _ IH]; [done|..]; rewrite !fmap_cons, IH.
  - done.
  - by rewrite trim_app_blank.
Qed.

End Body_lines.

(** X20: the tables and the batch acknowledgment read the same lines of a
    text: splitting at line feeds and trimming, as the handler of
    /iclock/cdata.aspx does, gives the lines that splitting at CR LF or LF
    and trimming gives in /iclock/devicecmd. *)
Theorem tables_read_the_lines_of_a_batch (body : string) :
  attendance_lines (Some body) = info_lines body.
Proof.
  unfold attendance_lines, info_lines, body_lines. simpl.
  by rewrite trim_split_LF.
Qed.

(** ** The users table *)

Section Users_table.
Import Js JsFacts.

Lemma same_value_text a b :
  text_pin a → text_pin b → same_value a b = true ↔ a = b.
Proof.
  intros [->|[s ->]] [->|[s' ->]]; simpl; try done.
  rewrite bool_decide_eq_true. split; [by intros ->|by intros [= ->]].
Qed.

Lemma pin_parseUserLine line :
  pin (parseUserLine line) = VString <$> fields_of line !! "PIN".
Proof.
  unfold pin, parseUserLine. rewrite lookup_union, lookup_fmap.
  destruct (fields_of line !! "PIN") as [s|] eqn:E; simpl.
  - by simplify_map_eq.
  - by simplify_map_eq.
Qed.

Lemma text_pin_parseUserLine line : text_pin (pin (parseUserLine line)).
Proof.
  rewrite pin_parseUserLine.
  destruct (fields_of line !! "PIN") as [s|]; [right; by exists s|by left].
Qed.

Lemma pin_created now SN u : pin (created now SN u) = pin u.
Proof. unfold pin, created, define. destruct SN; by simplify_map_eq. Qed.

Lemma pin_updated now SN u : pin (updated now SN u) = pin u.
Proof. unfold pin, updated, define. destruct SN; by simplify_map_eq. Qed.

Lemma pin_json o : text_pin (pin o) → pin (json o) = pin o.
Proof.
  unfold pin, json. rewrite lookup_fmap. by intros [->|[s ->]].
Qed.

Lemma json_value_idem v : json_value (json_value v) = json_value v.
Proof. by destruct v as [|[| |]| | |]. Qed.

Lemma clean_json o : clean (json o).
Proof.
  intros k v. unfold json. rewrite lookup_fmap.
  destruct (o !! k) as [w|]; [|done]. intros [= <-]. apply json_value_idem.
Qed.


(** What [upsert] does: it replaces the first object with the PIN of [u], or
    adds [u] at the end when no object has it. *)
Lemma upsert_cases now SN e u :
  Forall (λ x, text_pin (pin x)) e → text_pin (pin u) →
  (∃ i x, e !! i = Some x ∧ pin x = pin u
          ∧ upsert now SN e u = <[i := updated now SN u]> e)
  ∨ ((pin u ∉ pin <$> e) ∧ upsert now SN e u = e ++ [created now SN u]).
Proof.
  intros He Hu. unfold upsert.
  destruct (list_find (same_PIN u) e) as [[i x]|] eqn:E.
  - left. apply list_find_Some in E as (Hi & Hx & _).
    exists i, x. split_and!; [done| |done].
    apply same_value_text; [|done..].
    by apply (Forall_lookup_1 _ _ _ _ He Hi).
  - right. split; [|done]. apply list_find_None in E.
    intros (x & Hp & Hx)%list_elem_of_fmap.
    eapply Forall_forall in E; [|done]. apply E.
    apply same_value_text; [|done..].
    by eapply Forall_forall in He.
Qed.

Lemma pins_insert (e : list Obj) i x y :
  e !! i = Some x → pin y = pin x → pin <$> <[i := y]> e = pin <$> e.
Proof.
  intros Hi Hy. rewrite list_fmap_insert, Hy.
  apply list_insert_id. by rewrite list_lookup_fmap, Hi.
Qed.

(** The PINs of the table after [upsert]. *)
Lemma pins_upsert now SN e u :
  Forall (λ x, text_pin (pin x)) e → text_pin (pin u) →
  pin <$> upsert now SN e u
  = if decide (pin u ∈ pin <$> e) then pin <$> e else (pin <$> e) ++ [pin u].
Proof.
  intros He Hu.
  destruct (upsert_cases now SN e u He Hu) as [(i & x & Hi & Hx & ->)|[Hn ->]].
  - rewrite decide_True.
    + apply (pins_insert e i x); [done|]. by rewrite pin_updated.
    + rewrite <-Hx. apply list_elem_of_fmap. exists x.
      split; [done|]. by eapply list_elem_of_lookup_2.
  - rewrite decide_False by done. by rewrite fmap_app, fmap_cons, pin_created.
Qed.

Lemma text_pins_upsert now SN e u :
  Forall (λ x, text_pin (pin x)) e → text_pin (pin u) →
  Forall (λ x, text_pin (pin x)) (upsert now SN e u).
Proof.
  intros He Hu. apply Forall_fmap with (f := pin) (P := text_pin).
  rewrite pins_upsert by done. apply Forall_fmap in He.
  case_decide; [done|]. apply Forall_app. split; [done|]. by constructor.
Qed.

Lemma text_pins_fold now SN e us :
  Forall (λ x, text_pin (pin x)) e → Forall (λ x, text_pin (pin x)) us →
  Forall (λ x, text_pin (pin x)) (foldl (upsert now SN) e us).
Proof.
  intros He Hus. revert e He.
  induction Hus as [|u us Hu _ IH]; intros e He; [done|].
  simpl. apply IH. by apply text_pins_upsert.
Qed.

(** The PINs of the table after a batch: the PINs before, then the new PINs
    of the batch. *)
Lemma pins_fold now SN e us :
  Forall (λ x, text_pin (pin x)) e → Forall (λ x, text_pin (pin x)) us →
  ∃ new, pin <$> foldl (upsert now SN) e us = (pin <$> e) ++ new
         ∧ (∀ p, p ∈ new ↔ p ∈ pin <$> us ∧ p ∉ pin <$> e)
         ∧ NoDup new.
Proof.
  intros He Hus. revert e He.
  induction Hus as [|u us Hu _ IH]; intros e He.
  - exists []. rewrite app_nil_r. split_and!; [done| |constructor].
    intros p. split; [by intros ?%elem_of_nil|by intros [?%elem_of_nil _]].
  - cbn [foldl].
    destruct (IH (upsert now SN e u)) as (new & E & Hnew & Hdup);
      [by apply text_pins_upsert|].
    rewrite E. rewrite pins_upsert in * by done.
    case_decide as Hin.
    + exists new. split_and!; [done| |done].
      intros p. rewrite Hnew, fmap_cons, elem_of_cons.
      split; [intros [? ?]; by split; [right|]|].
      intros [[->|?] ?]; [done|by split].
    + exists (pin u :: new). split_and!.
      * by rewrite <-(assoc_L (++)).
      * intros p. rewrite fmap_cons, !elem_of_cons, Hnew, elem_of_app,
          list_elem_of_singleton.
        destruct (decide (p = pin u)) as [->|Hp].
        -- split; [intros _; split; [by left|done]|intros _; by left].
        -- split.
           ++ intros [?|[? Hn]]; [done|]. split; [by right|].
              intros ?. apply Hn. by left.
           ++ intros [[?|?] Hn]; [done|]. right. split; [done|].
              by intros [?|?].
      * constructor; [|done]. rewrite Hnew, elem_of_app, list_elem_of_singleton.
        intros [_ Hn]. apply Hn. by right.
Qed.

Lemma pins_json (l : list Obj) :
  Forall (λ x, text_pin (pin x)) l → pin <$> (json <$> l) = pin <$> l.
Proof.
  induction 1 as [|x l Hx _ IH]; [done|].
  by rewrite !fmap_cons, pin_json, IH.
Qed.

Lemma user_lines_users body :
  Forall (λ x, text_pin (pin x)) (parseUserLine <$> user_lines body).
Proof.
  apply Forall_fmap, Forall_forall. intros line _.
  apply text_pin_parseUserLine.
Qed.

(** What an OPERLOG request does to a table of users. *)
Lemma cdata_post_operlog SN body now d :
  Forall clean (users d) →
  disk (cdata_post (Some "OPERLOG") SN body now d)
  = {| users := json <$> foldl (upsert now SN) (users d)
                           (parseUserLine <$> user_lines body);
       attendance := attendance d |}.
Proof.
  intros Hd. unfold cdata_post.
  rewrite decide_False by done. rewrite decide_True by done.
  fold (user_lines body). rewrite length_fmap.
  case_decide as Hlen; [|done].
  apply nil_length_inv in Hlen. rewrite Hlen. simpl.
  rewrite json_clean_list by done. by destruct d.
Qed.

Lemma user_table_operlog SN body now d :
  user_table (users d) →
  user_table (users (disk (cdata_post (Some "OPERLOG") SN body now d))).
Proof.
  intros (Hc & Ht & Hn). rewrite cdata_post_operlog by done. cbn [users].
  pose proof (user_lines_users body) as Hus.
  pose proof (text_pins_fold now SN _ _ Ht Hus) as Ht'.
  split_and!.
  - apply Forall_fmap, Forall_forall. intros x _. apply clean_json.
  - apply Forall_fmap with (f := pin) (P := text_pin).
    rewrite pins_json by done. by apply Forall_fmap in Ht'.
  - rewrite pins_json by done.
    destruct (pins_fold now SN _ _ Ht Hus) as (new & -> & Hnew & Hdup).
    apply NoDup_app. split_and!; [done| |done].
    intros p Hp [_ ?]%Hnew. done.
Qed.

Lemma user_table_serve now r d :
  user_table (users d) → user_table (users (disk (serve now r d))).
Proof.
  intros Hd. destruct r as [|table SN body| |]; try exact Hd.
  cbn [serve].
  destruct (decide (table = Some "OPERLOG")) as [->|Hne];
    [by apply user_table_operlog|].
  unfold cdata_post. repeat case_decide; done.
Qed.

Lemma user_table_run rs : user_table (users (run_data rs fresh)).
Proof.
  induction rs as [|[now r] rs IH] using rev_ind.
  - split_and!; constructor.
  - rewrite run_data_snoc. by apply user_table_serve.
Qed.

End Users_table.

(** ** One batch of users *)

Section Users_batch.
Import Js JsFacts.

Lemma user_table_run_from rs d :
  user_table (users d) → user_table (users (run_data rs d)).
Proof.
  intros Hd. induction rs as [|[now r] rs IH] using rev_ind; [done|].
  rewrite run_data_snoc. by apply user_table_serve.
Qed.

(** [upsert] leaves the objects with another PIN where they are. *)
Lemma upsert_keeps now SN e u i x :
  Forall (λ x, text_pin (pin x)) e → text_pin (pin u) →
  e !! i = Some x → pin u ≠ pin x → upsert now SN e u !! i = Some x.
Proof.
  intros He Hu Hi Hne.
  destruct (upsert_cases now SN e u He Hu) as [(j & y & Hj & Hy & ->)|[_ ->]].
  - rewrite list_lookup_insert_ne; [done|]. intros ->.
    rewrite Hi in Hj. injection Hj as ->. by rewrite Hy in Hne.
  - by apply lookup_app_l_Some.
Qed.

Lemma fold_keeps now SN e us i x :
  Forall (λ x, text_pin (pin x)) e → Forall (λ x, text_pin (pin x)) us →
  e !! i = Some x → (∀ u, u ∈ us → pin u ≠ pin x) →
  foldl (upsert now SN) e us !! i = Some x.
Proof.
  intros He Hus. revert e He.
  induction Hus as [|u us Hu _ IH]; intros e He Hi Hne; [done|].
  cbn [foldl]. apply IH.
  - by apply text_pins_upsert.
  - apply upsert_keeps; [done..|]. apply Hne, list_elem_of_here.
  - intros u' Hu'. by apply Hne, list_elem_of_further.
Qed.

(** [upsert] stores the user: as an update when the table has its PIN. *)
Lemma upsert_stores now SN e u :
  Forall (λ x, text_pin (pin x)) e → text_pin (pin u) →
  ∃ i, upsert now SN e u !! i
       = Some (if decide (pin u ∈ pin <$> e) then updated now SN u
               else created now SN u).
Proof.
  intros He Hu.
  destruct (upsert_cases now SN e u He Hu) as [(j & y & Hj & Hy & ->)|[Hn ->]].
  - exists j. rewrite decide_True.
    + apply list_lookup_insert_eq. by eapply lookup_lt_Some.
    + rewrite <-Hy. apply list_elem_of_fmap. exists y.
      split; [done|]. by eapply list_elem_of_lookup_2.
  - exists (length e). rewrite decide_False by done.
    by rewrite lookup_app_r, Nat.sub_diag.
Qed.

Lemma pins_fold_elem now SN e us p :
  Forall (λ x, text_pin (pin x)) e → Forall (λ x, text_pin (pin x)) us →
  p ∈ pin <$> foldl (upsert now SN) e us ↔ p ∈ (pin <$> e) ++ (pin <$> us).
Proof.
  intros He Hus.
  destruct (pins_fold now SN e us He Hus) as (new & -> & Hnew & _).
  rewrite !elem_of_app, Hnew.
  destruct (decide (p ∈ pin <$> e)) as [Hp|Hp].
  - split; intros _; by left.
  - split; [intros [?|[? _]]; [by left|by right]|].
    intros [?|?]; [by left|right; by split].
Qed.

(** The last user of a batch with a PIN is the one that the table holds. *)
Lemma fold_last now SN e us1 u us2 :
  Forall (λ x, text_pin (pin x)) e →
  Forall (λ x, text_pin (pin x)) (us1 ++ u :: us2) →
  (∀ u', u' ∈ us2 → pin u' ≠ pin u) →
  (if decide (pin u ∈ (pin <$> e) ++ (pin <$> us1)) then updated now SN u
   else created now SN u)
  ∈ foldl (upsert now SN) e (us1 ++ u :: us2).
Proof.
  intros He [H1 [Hu H2]%Forall_cons]%Forall_app Hne.
  rewrite foldl_app. cbn [foldl].
  pose proof (text_pins_fold now SN e us1 He H1) as He1.
  destruct (upsert_stores now SN (foldl (upsert now SN) e us1) u He1 Hu)
    as [i Hi].
  apply list_elem_of_lookup. exists i.
  apply fold_keeps; [by apply text_pins_upsert|done| |].
  - rewrite Hi. f_equal.
    pose proof (pins_fold_elem now SN e us1 (pin u) He H1) as Hiff.
    destruct (decide (pin u ∈ pin <$> foldl (upsert now SN) e us1)) as [Hp|Hp].
    + rewrite decide_True; [done|]. by apply Hiff.
    + rewrite decide_False; [done|]. intros ?. by apply Hp, Hiff.
  - intros u' Hu'.
    destruct (decide (pin u ∈ (pin <$> e) ++ (pin <$> us1)));
      rewrite ?pin_updated, ?pin_created; by apply Hne.
Qed.

End Users_batch.

(** X21: no two users of the table have the same PIN.  Every PIN of the
    table is a text, or is missing, so that the comparison of the handler
    is equality, and no two objects of the table match under it; at most
    one user has no PIN. *)
Theorem users_have_distinct_PINs (rs : list (string * DataRequest)) :
  let l := users (run_data rs fresh) in
  Forall (λ x, text_pin (pin x)) l
  ∧ NoDup (pin <$> l)
  ∧ ∀ i j x y, l !! i = Some x → l !! j = Some y → same_PIN x y → i = j.
Proof.
  intros l. destruct (user_table_run rs) as (_ & Ht & Hn). fold l in Ht, Hn.
  split_and!; [done..|].
  intros i j x y Hi Hj Hxy.
  apply same_value_text in Hxy;
    [|by apply (Forall_lookup_1 _ _ _ _ Ht Hj)
     |by apply (Forall_lookup_1 _ _ _ _ Ht Hi)].
  eapply NoDup_lookup; [exact Hn|..].
  - by rewrite list_lookup_fmap, Hi.
  - rewrite list_lookup_fmap, Hj. simpl. f_equal. exact Hxy.
Qed.

(** X22: of the lines of an OPERLOG request that have the same PIN, the
    last one is what the table holds afterwards.  It is stored as an update
    (with updatedAt, and without createdAt unless the line has such a
    field) when its PIN is in the table or in an earlier line of the same
    request, and as a new user (with createdAt) otherwise. *)
Theorem operlog_last_line_wins (rs : list (string * DataRequest))
    (now : string) (SN : option JsValue) (body : option string) (before : list string)
    (line : string) (after : list string) :
  user_lines body = before ++ line :: after →
  (∀ l, l ∈ after → pin (parseUserLine l) ≠ pin (parseUserLine line)) →
  let d := run_data rs fresh in
  stored_user now SN
    ((pin <$> users d) ++ (pin ∘ parseUserLine <$> before)) (parseUserLine line)
  ∈ users (disk (cdata_post (Some "OPERLOG") SN body now d)).
Proof.
  intros Hlines Hlast d.
  destruct (user_table_run rs) as (Hc & Ht & _). fold d in Hc, Ht.
  rewrite cdata_post_operlog by done. cbn [users].
  pose proof (user_lines_users body) as Hus.
  rewrite Hlines in *. rewrite fmap_app, fmap_cons in *.
  apply list_elem_of_fmap. eexists. split; [reflexivity|].
  rewrite list_fmap_compose. apply fold_last; [done..|].
  intros u' (l & -> & Hl)%list_elem_of_fmap. by apply Hlast.
Qed.

Section Users_frame.
Import Js JsFacts.

Lemma operlog_pins SN body now d :
  user_table (users d) →
  ∃ new,
    pin <$> users (disk (cdata_post (Some "OPERLOG") SN body now d))
    = (pin <$> users d) ++ new
    ∧ (∀ p, p ∈ new ↔ p ∈ pin ∘ parseUserLine <$> user_lines body
                       ∧ p ∉ pin <$> users d)
    ∧ NoDup new.
Proof.
  intros (Hc & Ht & _). rewrite cdata_post_operlog by done. cbn [users].
  pose proof (user_lines_users body) as Hus.
  rewrite pins_json by by apply text_pins_fold.
  destruct (pins_fold now SN _ _ Ht Hus) as (new & -> & Hnew & Hdup).
  exists new. split_and!; [done| |done].
  intros p. by rewrite Hnew, list_fmap_compose.
Qed.

Lemma serve_pins_prefix now r d :
  user_table (users d) →
  (pin <$> users d) `prefix_of` (pin <$> users (disk (serve now r d))).
Proof.
  intros Hd. destruct r as [|table SN body| |]; try done.
  cbn [serve].
  destruct (decide (table = Some "OPERLOG")) as [->|Hne].
  - destruct (operlog_pins SN body now d Hd) as (new & -> & _). by exists new.
  - unfold cdata_post. repeat case_decide; done.
Qed.

Lemma run_pins_prefix rs d :
  user_table (users d) →
  (pin <$> users d) `prefix_of` (pin <$> users (run_data rs d)).
Proof.
  intros Hd. induction rs as [|[now r] rs IH] using rev_ind; [done|].
  rewrite run_data_snoc. etrans; [exact IH|].
  by apply serve_pins_prefix, user_table_run_from.
Qed.

End Users_frame.

(** X23: an OPERLOG request leaves the other users alone.  A user whose PIN
    is in no line of the request stays at its place, unchanged; the PINs of
    the table keep their places, and the PINs added behind them are PINs of
    lines of the request that the table did not have, each once; the table
    keeps its length when it has the PIN of every line.  The attendance
    table is not changed and the answer is always OK:OPERLOG 10001. *)
Theorem operlog_keeps_other_users (rs : list (string * DataRequest))
    (now : string) (SN : option JsValue) (body : option string) :
  let d := run_data rs fresh in
  let o := cdata_post (Some "OPERLOG") SN body now d in
  let batch := pin ∘ parseUserLine <$> user_lines body in
  reply o = Plain "OK:OPERLOG 10001"
  ∧ attendance (disk o) = attendance d
  ∧ (∀ i x, users d !! i = Some x → pin x ∉ batch →
       users (disk o) !! i = Some x)
  ∧ (∃ new, pin <$> users (disk o) = (pin <$> users d) ++ new
            ∧ (∀ p, p ∈ new ↔ p ∈ batch ∧ p ∉ pin <$> users d)
            ∧ NoDup new)
  ∧ ((∀ p, p ∈ batch → p ∈ pin <$> users d) →
       length (users (disk o)) = length (users d)).
Proof.
  intros d o batch.
  pose proof (user_table_run rs) as Hd. fold d in Hd.
  pose proof Hd as (Hc & Ht & _).
  pose proof (user_lines_users body) as Hus.
  destruct (operlog_pins SN body now d Hd) as (new & E & Hnew & Hdup).
  fold o batch in E, Hnew.
  split_and!.
  - unfold o, cdata_post. rewrite decide_False by done.
    rewrite decide_True by done. by case_decide.
  - unfold o. by rewrite cdata_post_operlog.
  - intros i x Hi Hx. unfold o. rewrite cdata_post_operlog by done.
    cbn [users]. rewrite list_lookup_fmap.
    rewrite (fold_keeps now SN (users d) _ i x); [|done..|].
    + simpl. f_equal. apply json_clean.
      by apply (Forall_lookup_1 _ _ _ _ Hc Hi).
    + intros u (l & -> & Hl)%list_elem_of_fmap Hp. apply Hx.
      unfold batch. apply list_elem_of_fmap. by exists l.
  - by exists new.
  - intros Hall.
    assert (new = []) as ->.
    { destruct new as [|p new']; [done|].
      destruct (proj1 (Hnew p) (list_elem_of_here _ _)) as [Hp Hn].
      destruct Hn. by apply Hall. }
    rewrite app_nil_r in E.
    by rewrite <-(length_fmap pin (users (disk o))), E, length_fmap.
Qed.

(** X24: a user is never removed from the table and never moves: whatever
    requests follow, the PINs of the table stay at their places, and new
    PINs come behind them. *)
Theorem users_are_never_removed (rs rs' : list (string * DataRequest)) :
  (pin <$> users (run_data rs fresh))
  `prefix_of` (pin <$> users (run_data (rs ++ rs') fresh)).
Proof. rewrite run_data_app. apply run_pins_prefix, user_table_run. Qed.

(** ** parseUserLine *)

Section User_line.
Import Js JsFacts.

Lemma split_no_sep sep s : Forall (λ p, includes sep p = false) (split sep s).
Proof.
  induction s as [|a s IH]; [by repeat constructor|]. simpl.
  case_decide; [by constructor|]. by apply includes_cons_head.
Qed.

Lemma no_space_cons_head a l :
  is_white_space a = false → Forall (λ p, has_space p = false) l →
  Forall (λ p, has_space p = false) (cons_head a l).
Proof.
  intros Ha [|p l' Hp Hl]; simpl; repeat constructor; simpl;
    rewrite ?Ha, ?Hp; done.
Qed.

Lemma split_no_space sep s :
  has_space s = false → Forall (λ p, has_space p = false) (split sep s).
Proof.
  induction s as [|a s IH]; [by repeat constructor|].
  intros Hs. simpl in Hs. apply orb_false_iff in Hs as [Ha Hs]. simpl.
  case_decide; [constructor; [done|by apply IH]|].
  apply no_space_cons_head; [done|by apply IH].
Qed.

(** No piece of [split(/\s+/)] holds white space. *)
Lemma split_space_no_space b s :
  Forall (λ p, has_space p = false) (split_space_from b s).
Proof.
  revert b. induction s as [|a s IH]; intros b; [by repeat constructor|].
  simpl. destruct (is_white_space a) eqn:Ea.
  - destruct b; [apply IH|]. constructor; [done|apply IH].
  - by apply no_space_cons_head.
Qed.

Lemma cut_or_text v d :
  (∀ s, v = Some s → cut s) → cut d → cut (or_text v d).
Proof.
  intros Hv Hd. destruct v as [s|]; [|done]. simpl.
  destruct (falsy s); [done|]. by apply Hv.
Qed.

(** A pair sets a cut text under the name of a field, or nothing. *)
Lemma set_field_cut fields pair :
  has_space pair = false →
  map_Forall (λ k v, field_name k ∧ cut v) fields →
  map_Forall (λ k v, field_name k ∧ cut v) (set_field fields pair).
Proof.
  intros Hpair Hfields. unfold set_field.
  pose proof (split_no_sep "=" pair) as Hsep.
  pose proof (split_no_space "=" pair Hpair) as Hsp.
  destruct (split "=" pair) as [|key rest] eqn:E; [done|]. simpl.
  destruct (falsy key) eqn:Hkey; [done|].
  case_decide as Hproto; [done|].
  apply Forall_cons in Hsep as [Hk Hrest], Hsp as [Hk' Hrest'].
  apply map_Forall_insert_2; [|done]. split.
  - split_and!; try done. intros ->. by vm_compute in Hkey.
  - apply cut_or_text; [|done]. intros s Hs. split.
    + by apply (Forall_lookup_1 _ _ _ _ Hrest' Hs).
    + by apply (Forall_lookup_1 _ _ _ _ Hrest Hs).
Qed.

Lemma fields_of_cut line :
  map_Forall (λ k v, field_name k ∧ cut v) (fields_of line).
Proof.
  unfold fields_of, split_space.
  pose proof (split_space_no_space false line) as Hsp.
  assert (map_Forall (λ k v, field_name k ∧ cut v)
            (∅ : gmap string string)) as H0 by apply map_Forall_empty.
  revert H0. generalize (∅ : gmap string string).
  induction Hsp as [|pair l Hpair _ IH]; intros fields Hf; [done|].
  simpl. by apply IH, set_field_cut.
Qed.

Lemma parseUserLine_properties line :
  map_Forall user_property (parseUserLine line).
Proof.
  pose proof (fields_of_cut line) as Hf.
  assert (∀ k d, cut d → cut (or_text (fields_of line !! k) d)) as Hor.
  { intros k d Hd. apply cut_or_text; [|done].
    intros s Hs. by destruct (Hf k s Hs). }
  assert (∀ k, field_name k →
            ∀ m : gmap string Value, map_Forall user_property m →
            map_Forall user_property
              (define k (VString <$> fields_of line !! k) m)) as Hdef.
  { intros k Hk m Hm. destruct (fields_of line !! k) as [s|] eqn:E; simpl.
    - apply map_Forall_insert_2; [|done]. split; [done|].
      by destruct (Hf k s E).
    - by apply map_Forall_delete. }
  unfold parseUserLine.
  intros k v [Hk|[_ Hk]]%lookup_union_Some_raw.
  - rewrite lookup_fmap in Hk.
    destruct (fields_of line !! k) as [s|] eqn:E; [|done].
    injection Hk as <-. destruct (Hf k s E). by split.
  - revert k v Hk.
    repeat (apply Hdef; [by repeat split|]).
    repeat (apply map_Forall_insert_2;
            [split; [by repeat split|first [done|by apply Hor]]|]).
    apply map_Forall_empty.
Qed.

End User_line.

(** X25: parseUserLine cuts the texts of a line at white space and at the
    sign [=].  Every property of the object that it returns has a name that
    is not empty, is not __proto__ and holds no white space and no [=]; its
    value is a text without white space and without [=], or it is the
    number of Privilege.  So a name of two words is not kept: the text of a
    field ends at the first blank. *)
Theorem user_values_are_cut (line k : string) (v : Value) :
  parseUserLine line !! k = Some v → user_property k v.
Proof. apply parseUserLine_properties. Qed.

(** ** The fields of a user line *)

Section User_fields.
Import Js JsFacts.

Lemma split_one sep s : includes sep s = false → split sep s = [s].
Proof.
  induction s as [|a s IH]; [done|]. simpl.
  intros [Ha%bool_decide_eq_false Hs]%orb_false_iff.
  rewrite decide_False by done. by rewrite IH.
Qed.

(** The pair [k=v] sets the field [k] to [v]. *)
Lemma set_field_pair fields k v :
  field_name k → cut v →
  set_field fields (k +:+ "=" +:+ v) = <[k := v]> fields.
Proof.
  intros (Hne & Hproto & _ & Hk) [_ Hv]. unfold set_field.
  change (k +:+ "=" +:+ v) with (k +:+ String "=" v).
  rewrite split_app, split_one by done. simpl.
  unfold falsy. rewrite bool_decide_eq_false_2 by done.
  rewrite decide_False by done. by case_bool_decide; subst.
Qed.

(** A pair with another key leaves the field. *)
Lemma set_field_other fields pair k :
  split "=" pair !! 0%nat ≠ Some k →
  set_field fields pair !! k = fields !! k.
Proof.
  intros Hk. unfold set_field.
  destruct (split "=" pair !! 0%nat) as [key|]; [|done].
  destruct (falsy key); [done|]. case_decide; [done|].
  rewrite lookup_insert_ne; [done|]. by intros ->.
Qed.

Lemma fold_set_field_other fields pairs k :
  (∀ pair, pair ∈ pairs → split "=" pair !! 0%nat ≠ Some k) →
  foldl set_field fields pairs !! k = fields !! k.
Proof.
  revert fields. induction pairs as [|pair pairs IH]; intros fields Hk; [done|].
  cbn [foldl]. rewrite IH.
  - apply set_field_other, Hk, list_elem_of_here.
  - intros pair' Hin. by apply Hk, list_elem_of_further.
Qed.

Lemma fields_of_last_pair line before k v after :
  split_space line = before ++ (k +:+ "=" +:+ v) :: after →
  field_name k → cut v →
  (∀ pair, pair ∈ after → split "=" pair !! 0%nat ≠ Some k) →
  fields_of line !! k = Some v.
Proof.
  intros E Hk Hv Hafter. unfold fields_of. rewrite E, foldl_app. cbn [foldl].
  rewrite fold_set_field_other, set_field_pair by done.
  by rewrite lookup_insert_eq.
Qed.

End User_fields.

(** X26: parseUserLine reads the fields of a line by name.  In a line of
    tokens, the last token of the form k=v for a name k (not empty, not
    __proto__, without [=]) gives the user the property k with the text v:
    so PIN=7 gives the PIN by which the table finds the user. *)
Theorem user_fields_by_name (t : string) (rest : list (string * string))
    (before : list string) (k v : string) (after : list string) :
  token t → Forall (λ p, separator p.1 ∧ token p.2) rest →
  t :: rest.*2 = before ++ (k +:+ "=" +:+ v) :: after →
  field_name k → cut v →
  (∀ pair, pair ∈ after → Js.split "=" pair !! 0%nat ≠ Some k) →
  parseUserLine (weave t rest) !! k = Some (VString v).
Proof.
  intros Ht Hrest E Hk Hv Hafter. unfold parseUserLine.
  apply lookup_union_Some_l. rewrite lookup_fmap.
  rewrite (fields_of_last_pair _ before k v after); [done| |done..].
  by rewrite split_space_weave.
Qed.

(** ** The tag of a user line *)

Section User_tag.
Import Js JsFacts.

Lemma startsWith_app p s : startsWith p s = true → ∃ r, s = p +:+ r.
Proof.
  revert s. induction p as [|a p IH]; intros s; [by exists s|].
  destruct s as [|b s]; [done|]. simpl.
  intros [->%bool_decide_eq_true Hs]%andb_true_iff.
  destruct (IH s Hs) as [r ->]. by exists r.
Qed.

Lemma startsWith_prefix p r : startsWith p (p +:+ r) = true.
Proof.
  induction p as [|a p IH]; [done|]. rewrite app_String. simpl.
  by rewrite bool_decide_eq_true_2, IH.
Qed.

(** A text without the separator stays in front of the first piece. *)
Lemma split_prefix sep t r :
  includes sep t = false →
  ∃ h tl, split sep (t +:+ r) = (t +:+ h) :: tl.
Proof.
  induction t as [|a t IH]; intros Ht.
  - rewrite app_empty_l. pose proof (split_not_nil sep r).
    destruct (split sep r) as [|h tl]; [done|]. by exists h, tl.
  - simpl in Ht. apply orb_false_iff in Ht as [Ha%bool_decide_eq_false Ht].
    destruct (IH Ht) as (h & tl & E).
    rewrite app_String. simpl. rewrite decide_False by done.
    rewrite E. by exists h, tl.
Qed.

Lemma set_field_keeps fields pair k :
  is_Some (fields !! k) → is_Some (set_field fields pair !! k).
Proof.
  intros Hk. unfold set_field.
  destruct (split "=" pair !! 0%nat) as [key|]; [|done].
  destruct (falsy key); [done|]. case_decide; [done|].
  destruct (decide (key = k)) as [->|Hne].
  - by rewrite lookup_insert_eq.
  - by rewrite lookup_insert_ne.
Qed.

Lemma fold_set_field_keeps fields pairs k :
  is_Some (fields !! k) → is_Some (foldl set_field fields pairs !! k).
Proof.
  revert fields. induction pairs as [|pair pairs IH]; intros fields Hk; [done|].
  cbn [foldl]. by apply IH, set_field_keeps.
Qed.

(** The first token of a line that starts with USER leaves a field. *)
Lemma fields_of_tag line :
  startsWith "USER" line = true →
  ∃ k, startsWith "USER" k = true ∧ is_Some (fields_of line !! k).
Proof.
  intros [r ->]%startsWith_app. unfold fields_of, split_space.
  rewrite (split_space_token false "USER" r) by done.
  pose proof (split_space_from_not_nil false r).
  destruct (split_space_from false r) as [|h tl]; [done|].
  destruct (split_prefix "=" "USER" h) as (h' & tl' & E); [done|].
  exists ("USER" +:+ h'). split; [apply startsWith_prefix|].
  cbn [foldl]. apply fold_set_field_keeps.
  unfold set_field. rewrite E. simpl.
  by rewrite lookup_insert_eq.
Qed.

Lemma tagged_parseUserLine line :
  startsWith "USER" line = true → tagged (parseUserLine line).
Proof.
  intros (k & Hk & [v Hv])%fields_of_tag. exists k. split; [done|].
  exists (VString v). unfold parseUserLine.
  apply lookup_union_Some_l. by rewrite lookup_fmap, Hv.
Qed.

Lemma tagged_define x k v :
  startsWith "USER" k = false → tagged x → tagged (define k v x).
Proof.
  intros Hk (k' & Hk' & Hx). exists k'. split; [done|].
  assert (k ≠ k') by (intros ->; congruence).
  destruct v as [v|]; simpl.
  - by rewrite lookup_insert_ne.
  - by rewrite lookup_delete_ne.
Qed.

Lemma tagged_json x : tagged x → tagged (json x).
Proof.
  intros (k & Hk & [v Hv]). exists k. split; [done|].
  unfold json. rewrite lookup_fmap, Hv. by eexists.
Qed.

Lemma tagged_upsert now SN e u :
  Forall tagged e → tagged u → Forall tagged (upsert now SN e u).
Proof.
  intros He Hu.
  assert (tagged (updated now SN u) ∧ tagged (created now SN u)) as [Hup Hcr].
  { split; apply tagged_define; try done;
      by apply (tagged_define _ _ (Some _)). }
  unfold upsert. destruct (list_find (same_PIN u) e) as [[i x]|].
  - by apply Forall_insert.
  - apply Forall_app. split; [done|]. by constructor.
Qed.

Lemma tagged_fold now SN e us :
  Forall tagged e → Forall tagged us →
  Forall tagged (foldl (upsert now SN) e us).
Proof.
  intros He Hus. revert e He.
  induction Hus as [|u us Hu _ IH]; intros e He; [done|].
  cbn [foldl]. by apply IH, tagged_upsert.
Qed.

Lemma tagged_serve now r d :
  Forall tagged (users d) → Forall tagged (users (disk (serve now r d))).
Proof.
  intros Hd. destruct r as [|table SN body| |]; try exact Hd.
  cbn [serve]. unfold cdata_post.
  repeat case_decide; try done. cbn [disk saveJSON users loadJSON].
  apply Forall_fmap. eapply Forall_impl; [|apply tagged_json].
  apply tagged_fold; [done|].
  apply Forall_fmap, Forall_forall.
  intros line [Hline _]%list_elem_of_filter. by apply tagged_parseUserLine.
Qed.

Lemma tagged_run rs : Forall tagged (users (run_data rs fresh)).
Proof.
  induction rs as [|[now r] rs IH] using rev_ind; [constructor|].
  rewrite run_data_snoc. by apply tagged_serve.
Qed.

End User_tag.

(** X27: the first token of a USER line is stored as a field.  Every user
    of the table has a property whose name starts with USER (the first
    token of the line that stored it, up to its first [=]). *)
Theorem users_carry_the_tag_of_their_line (rs : list (string * DataRequest)) :
  Forall tagged (users (run_data rs fresh)).
Proof. apply tagged_run. Qed.

(** ** The properties of the tables at concrete requests *)

Lemma attendance_fields_by_position_witness :
  let tab := String "009"%char "" in
  let rest := [("  ", "2024-05-01"); (tab, "08:30:00"); (" ", "1")] in
  blank tab = true ∧ token "7"
  ∧ parseAttendanceLine (tab +:+ weave "7" rest +:+ " ")
    = {[ "PIN" := VString "7";
         "Timestamp" := VString "2024-05-01 08:30:00";
         "VerifyMode" := VString "1";
         "InOutMode" := VString "";
         "WorkCode" := VString "" ]}.
Proof.
  intros tab rest. split; [reflexivity|]. split; [split; [discriminate|reflexivity]|].
  apply (attendance_fields_by_position tab "7" rest " ");
    [reflexivity|reflexivity|split; [discriminate|reflexivity]|].
  repeat constructor; discriminate.
Defined.

Lemma operlog_last_line_wins_witness :
  let first := "USER PIN=1 Name=Ann" in
  let last := "USER PIN=1 Name=Bea" in
  let body := first +:+ String Js.LF last in
  user_lines (Some body) = [first; last]
  ∧ stored_user "t" None
      ((pin <$> users (run_data [] fresh)) ++ (pin ∘ parseUserLine <$> [first]))
      (parseUserLine last)
    ∈ users (disk (cdata_post (Some "OPERLOG") None (Some body) "t"
                     (run_data [] fresh))).
Proof.
  intros first last body. split; [reflexivity|].
  apply (operlog_last_line_wins [] "t" None (Some body) [first] last []).
  - reflexivity.
  - intros l Hl. inversion Hl.
Defined.

Lemma user_values_are_cut_witness :
  let line := "USER PIN=1 Name=John Doe" in
  parseUserLine line !! "Name" = Some (VString "John")
  ∧ user_property "Name" (VString "John").
Proof.
  intros line. split; [vm_compute; reflexivity|].
  apply (user_values_are_cut line). vm_compute. reflexivity.
Defined.

Lemma user_fields_by_name_witness :
  let tab := String "009"%char "" in
  let rest := [(" ", "PIN=1"); (tab, "Name=Ann"); (tab, "PIN=7")] in
  parseUserLine (weave "USER" rest) !! "PIN" = Some (VString "7").
Proof.
  intros tab rest.
  apply (user_fields_by_name "USER" rest ["USER"; "PIN=1"; "Name=Ann"]
           "PIN" "7" []).
  - split; [discriminate|reflexivity].
  - repeat constructor; discriminate.
  - reflexivity.
  - repeat split; discriminate.
  - split; reflexivity.
  - intros pair Hin. inversion Hin.
Defined.

(** The array of a repeated SN parameter is stored as it is. *)
Example attlog_keeps_the_SN_of_the_query :
  let SN := JArray [JString "a"; JString "b"] in
  let o := cdata_post (Some "ATTLOG") (Some SN) (Some "7 2024-05-01 08:30:00")
             "t" fresh in
  (λ e : Obj, e !! "SN") <$> attendance (disk o)
  = [Some (VArray [JString "a"; JString "b"])].
Proof. by vm_compute. Qed.
